(** * codemode: the tool-aggregation server (src/server/server.ts)

    A shallow embedding of the server module: name sanitising and
    qualification, placeholder expansion, the signature synthesiser, the
    backend connector, the catalog aggregator, the invocation router and
    start-up.

    Modelling conventions.
    - A JavaScript string is its sequence of UTF-16 code units
      ([jsstring = list N]); [lit] turns an ASCII literal into one.
    - Module-level variables ([server], [serverConfig], [toolRegistry]) are
      the fields of an explicit [state], threaded through a state-and-
      exception monad [M]; it also carries a log of the externally visible
      effects (sessions opened and closed, requests, console output).
    - Everything outside the module (the file system, [process.env],
      [JSON.parse], the MCP client library) is read from a [World] record.
    - An object is the list of its own properties.  Where the source reads
      a member under a computed name ([process.env[v]], the lookup table
      of [toType]) the members inherited from [Object.prototype] are
      looked up too.  The built-in objects themselves are not part of the
      state: [prepareTools], which would store on them for a namespace or
      a tool key that is an inherited name, is described for the other
      names, and the statements about its map say so.
    - [await] is sequential composition.  The per-backend callbacks of
      [Promise.all] touch the shared variables only in their synchronous
      tail, so each is run as one block, in the order in which the
      backends settle ([settle] of the world). *)

From Equations Require Import Equations.
From Stdlib Require Import Ascii String.
From Stdlib Require Import List NArith ZArith Bool Lia.
From Stdlib Require Import Permutation.
From Stdlib Require DecimalString.
Import ListNotations.
Local Open Scope N_scope.
Set Warnings "-register-all".

(* ===================================================================== *)
(** ** JavaScript strings *)
(* ===================================================================== *)

Module Js.

Definition jsstring := list N.

(** An ASCII literal of the source as a sequence of code units. *)
Definition lit (s : string) : jsstring :=
  map N_of_ascii (list_ascii_of_string s).

Definition chr (a : ascii) : N := N_of_ascii a.

Fixpoint eqb (a b : jsstring) : bool :=
  match a, b with
  | [], [] => true
  | x :: a', y :: b' => (x =? y) && eqb a' b'
  | _, _ => false
  end.

(** [Array.prototype.includes] on an array of strings. *)
Definition includes (l : list jsstring) (x : jsstring) : bool :=
  existsb (eqb x) l.

(** [a.startsWith(p)]. *)
Fixpoint startsWith (p a : jsstring) : bool :=
  match p, a with
  | [], _ => true
  | x :: p', y :: a' => (x =? y) && startsWith p' a'
  | _ :: _, [] => false
  end.

(** [a.includes(p)] on strings: [p] occurs in [a]. *)
Fixpoint str_includes (p a : jsstring) : bool :=
  startsWith p a ||
  match a with
  | [] => false
  | _ :: a' => str_includes p a'
  end.

(** [a.endsWith(p)]. *)
Definition endsWith (p a : jsstring) : bool :=
  startsWith (rev p) (rev a).

(** [s.split(sep)] for a one-character separator: never empty, and
    [''.split('.')] is the one-element array holding the empty string. *)
Fixpoint split (sep : N) (s : jsstring) : list jsstring :=
  match s with
  | [] => [[]]
  | c :: t =>
      if c =? sep then [] :: split sep t
      else match split sep t with
           | h :: r => (c :: h) :: r
           | [] => [[c]]
           end
  end.

(** [parts.join(sep)]. *)
Fixpoint join (sep : jsstring) (parts : list jsstring) : jsstring :=
  match parts with
  | [] => []
  | [p] => p
  | p :: rest => p ++ sep ++ join sep rest
  end.

(** Decimal text of an array index or of an integer. *)
Definition of_nat (n : nat) : jsstring :=
  lit (DecimalString.NilZero.string_of_uint (Nat.to_uint n)).

Definition of_Z (z : Z) : jsstring :=
  lit (DecimalString.NilZero.string_of_int (Z.to_int z)).

End Js.

Import Js.

Declare Scope js_scope.
Delimit Scope js_scope with js.
Notation "a +++ b" := (@app N a b)
  (at level 60, right associativity) : js_scope.
Local Open Scope js_scope.

(* ===================================================================== *)
(** ** Name sanitiser and qualification *)
(* ===================================================================== *)

(** The class [\w] of a regular expression without the [u] or [i] flags:
    ASCII letters, digits and the underscore.  [\W] is its complement over
    all code units, [\d] the ten ASCII digits. *)
Definition is_digit (c : N) : bool := (48 <=? c) && (c <=? 57).

Definition is_word (c : N) : bool :=
  is_digit c || ((65 <=? c) && (c <=? 90)) || (c =? 95)
  || ((97 <=? c) && (c <=? 122)).

Definition underscore : N := 95.
Definition dot : N := 46.

(** [name.replaceAll(/\W/g, '_')]. *)
Definition replace_nonword (name : jsstring) : jsstring :=
  map (fun c => if is_word c then c else underscore) name.

(** [s.replace(/^\d/, '_$&')]: a leading digit gets an underscore in front
    of it. *)
Definition prefix_digit (s : jsstring) : jsstring :=
  match s with
  | c :: _ => if is_digit c then underscore :: s else s
  | [] => []
  end.

(** [const sanitize = (name) =>
      name.replaceAll(/\W/g, '_').replace(/^\d/, '_$&')] *)
Definition sanitize (name : jsstring) : jsstring :=
  prefix_digit (replace_nonword name).

(** [parts.slice(1).map(sanitize).join('_')] *)
Definition flatten_tail (parts : list jsstring) : jsstring :=
  join [underscore] (map sanitize (tl parts)).

(** The name under which [getAllServerTools] publishes a tool:
    [[
      const fullName = `${serverName}.${tool.name}`;
      const parts = fullName.split('.');
      const callableName = parts.length > 1
        ? `${sanitize(parts[0])}.${parts.slice(1).map(sanitize).join('_')}`
        : sanitize(fullName);
    ]] *)
Definition fullName (serverName toolName : jsstring) : jsstring :=
  serverName +++ [dot] +++ toolName.

Definition callableName (serverName toolName : jsstring) : jsstring :=
  let parts := split dot (fullName serverName toolName) in
  if (1 <? length parts)%nat
  then sanitize (hd [] parts) +++ [dot] +++ flatten_tail parts
  else sanitize (fullName serverName toolName).

(** The underscore-joined sanitised segments of a raw tool name. *)
Definition flat_name (toolName : jsstring) : jsstring :=
  join [underscore] (map sanitize (split dot toolName)).

(* ===================================================================== *)
(** ** Members inherited from [Object.prototype] *)
(* ===================================================================== *)

(** The names every object inherits from [Object.prototype]. *)
Definition Object_prototype_names : list jsstring :=
  map lit ["constructor"; "__defineGetter__"; "__defineSetter__";
           "hasOwnProperty"; "__lookupGetter__"; "__lookupSetter__";
           "isPrototypeOf"; "propertyIsEnumerable"; "toString"; "valueOf";
           "__proto__"; "toLocaleString"]%string.

(** What [toType] returns: a signature text or, when [s.type] names a
    member the lookup table inherits, that member (a function, or
    [Object.prototype] itself for [__proto__]), which is not a string. *)
Inductive rendered : Type :=
| Text (t : jsstring)
| Inherited (name : jsstring).

(** A [rendered] value inside a template literal; a built-in function
    prints the way V8 prints it. *)
Definition text_of (r : rendered) : jsstring :=
  match r with
  | Text t => t
  | Inherited name =>
      if eqb name (lit "__proto__") then lit "[object Object]"
      else if eqb name (lit "constructor")
           then lit "function Object() { [native code] }"
           else lit "function " +++ name +++ lit "() { [native code] }"
  end.

(* ===================================================================== *)
(** ** Placeholder expansion *)
(* ===================================================================== *)

Definition dollar : N := 36.
Definition lbrace : N := 123.
Definition rbrace : N := 125.

(** The longest prefix of [s] without the character [stop], and what is
    left of [s]. *)
Fixpoint span_until (stop : N) (s : jsstring) : jsstring * jsstring :=
  match s with
  | [] => ([], [])
  | c :: t =>
      if c =? stop then ([], s)
      else let (a, b) := span_until stop t in (c :: a, b)
  end.

(** One attempt of the pattern [\$\{([^}]+)\}] at the head of [s]: the
    captured name and the text after the closing brace.  The class [[^}]]
    cannot run over a closing brace, so the only candidate is the longest
    brace-free run, which has to be non-empty and followed by [}]. *)
Definition match_placeholder (s : jsstring) : option (jsstring * jsstring) :=
  match s with
  | c1 :: c2 :: t =>
      if (c1 =? dollar) && (c2 =? lbrace) then
        match span_until rbrace t with
        | ((_ :: _) as v, _ :: rest) => Some (v, rest)
        | _ => None
        end
      else None
  | _ => None
  end.

(** The text of the placeholder whose name is [v]. *)
Definition placeholder (v : jsstring) : jsstring :=
  dollar :: lbrace :: v +++ [rbrace].

(** [process.env[v]].  [env] gives the variables that are set, and a
    variable that is set is an own property, whatever its name.  For a name
    that is not set the lookup goes on to [Object.prototype], which
    [process.env] inherits from: it finds a member there under the names
    of [Object_prototype_names], and nothing under any other name. *)
Inductive env_value : Type :=
| Own_value (value : jsstring)
| Inherited_member (name : jsstring)
| Unset.

Definition process_env_get (env : jsstring -> option jsstring) (v : jsstring)
  : env_value :=
  match env v with
  | Some value => Own_value value
  | None =>
      if includes Object_prototype_names v then Inherited_member v else Unset
  end.

(** The replacer [(_, v) => process.env[v] || _], with the conversion to
    a string [replaceAll] applies to what it returns: the variable's value
    when it is a non-empty string; the whole match when the variable is
    set to the empty string, or not set under a name nothing is inherited
    for; the text of the inherited member (an object, hence truthy)
    otherwise. *)
Definition replacer (env : jsstring -> option jsstring) (whole v : jsstring)
  : jsstring :=
  match process_env_get env v with
  | Own_value ((_ :: _) as value) => value
  | Own_value [] => whole
  | Inherited_member name => text_of (Inherited name)
  | Unset => whole
  end.

Definition inspect {A} (a : A) : {b | a = b} := exist _ a eq_refl.

(** [const expandEnv = (s) =>
      s.replaceAll(/\$\{([^}]+)\}/g, (_, v) => process.env[v] || _)]
    The scan goes from left to right; after a match it resumes behind the
    match, elsewhere it copies one character and moves on. *)
Equations expandEnv (env : jsstring -> option jsstring) (s : jsstring)
  : jsstring by wf (List.length s) lt :=
  expandEnv env [] := [];
  expandEnv env (c :: t) with inspect (match_placeholder (c :: t)) := {
    | exist _ (Some (v, rest)) _ =>
        replacer env (placeholder v) v +++ expandEnv env rest
    | exist _ None _ => c :: expandEnv env t }.
Next Obligation.
  (* what is left behind a match is shorter than the text it started in *)
  assert (L : forall s a b, span_until rbrace s = (a, b) ->
                            (List.length a + List.length b
                             = List.length s)%nat).
  { induction s as [|x s IH]; simpl; intros a b H.
    - inversion H; reflexivity.
    - destruct (x =? rbrace).
      + inversion H; reflexivity.
      + destruct (span_until rbrace s) as [a' b'].
        inversion H; subst. simpl. rewrite (IH a' b eq_refl). reflexivity. }
  change (match_placeholder (c :: t) = Some (v, rest)) in e.
  unfold match_placeholder in e.
  destruct t as [|c2 t]; [discriminate|].
  destruct ((c =? dollar) && (c2 =? lbrace)); [|discriminate].
  destruct (span_until rbrace t) as [a b] eqn:E. apply L in E.
  destruct a as [|x a]; [discriminate|].
  destruct b as [|y b]; [discriminate|].
  inversion e; subst. simpl in *. lia.
Qed.

(* ===================================================================== *)
(** ** Values, exceptions and results *)
(* ===================================================================== *)

(** A value of type [any] that came out of JSON or off the wire, plus
    [undefined] for what is absent.  [JObj] lists the own properties in
    the order of [Object.entries].  [JNum] holds the integers; numbers
    with a fraction or an exponent are not represented. *)
Inductive JSVal : Type :=
| JUndefined
| JNull
| JBool (b : bool)
| JNum (z : Z)
| JStr (s : jsstring)
| JArr (items : list JSVal)
| JObj (props : list (jsstring * JSVal)).

(** What the module can throw or let through. *)
Inductive exn : Type :=
| Error (message : jsstring)   (* [throw new Error(message)] of the source *)
| TypeError                    (* raised by the language runtime *)
| SyntaxError                  (* raised by [JSON.parse] *)
| Failure (reason : jsstring). (* a rejection from outside: node:fs, the SDK *)

Inductive result (A : Type) : Type :=
| Ok (a : A)
| Throw (e : exn).
Arguments Ok {A} a.
Arguments Throw {A} e.

Definition rbind {A B} (r : result A) (k : A -> result B) : result B :=
  match r with
  | Ok a => k a
  | Throw e => Throw e
  end.

(** [l.map(f)] where [f] may throw: the first exception ends the loop. *)
Fixpoint rmap {A B} (f : A -> result B) (l : list A) : result (list B) :=
  match l with
  | [] => Ok []
  | x :: t => rbind (f x) (fun y => rbind (rmap f t) (fun ys => Ok (y :: ys)))
  end.

(** Truthiness ([ToBoolean]). *)
Definition truthy (v : JSVal) : bool :=
  match v with
  | JUndefined | JNull => false
  | JBool b => b
  | JNum z => negb (z =? 0)%Z
  | JStr s => match s with [] => false | _ => true end
  | JArr _ | JObj _ => true
  end.

(** [a || b]. *)
Definition js_or (a b : JSVal) : JSVal := if truthy a then a else b.

Fixpoint assoc {A} (k : jsstring) (l : list (jsstring * A)) : option A :=
  match l with
  | [] => None
  | (k', v) :: t => if eqb k k' then Some v else assoc k t
  end.

(** [v.k] for a member name [k] that no prototype defines ([enum], [type],
    [items], [properties], [required]): an own property of an object,
    [undefined] on every other non-nullish value. *)
Definition member (v : JSVal) (k : jsstring) : JSVal :=
  match v with
  | JObj props => match assoc k props with Some x => x | None => JUndefined end
  | _ => JUndefined
  end.

(** [ToString], as applied by [join], by template literals and by a
    computed property key.  An array prints its elements joined by commas,
    [null] and [undefined] elements as the empty string.  An object prints
    through [Object.prototype.toString], unless an own [toString] property
    shadows it: a value that came out of JSON is not callable, and the
    conversion raises [TypeError]. *)
Fixpoint toString (v : JSVal) : result jsstring :=
  match v with
  | JUndefined => Ok (lit "undefined")
  | JNull => Ok (lit "null")
  | JBool true => Ok (lit "true")
  | JBool false => Ok (lit "false")
  | JNum z => Ok (of_Z z)
  | JStr s => Ok s
  | JArr items =>
      rbind
        ((fix elements (l : list JSVal) : result (list jsstring) :=
            match l with
            | [] => Ok []
            | x :: t =>
                rbind (match x with
                       | JUndefined | JNull => Ok []
                       | _ => toString x
                       end)
                      (fun y => rbind (elements t) (fun ys => Ok (y :: ys)))
            end) items)
        (fun texts => Ok (join (lit ",") texts))
  | JObj props =>
      match assoc (lit "toString") props with
      | Some _ => Throw TypeError
      | None => Ok (lit "[object Object]")
      end
  end.

(** The text [join] gives an element of the array it joins. *)
Definition join_text (v : JSVal) : result jsstring :=
  match v with
  | JUndefined | JNull => Ok []
  | _ => toString v
  end.

(** [Object.entries(p)] for a value [p]: the own enumerable properties.
    An array and a string have their indices, a number and a boolean have
    none, [null] and [undefined] raise. *)
Fixpoint indexed {A} (i : nat) (l : list A) : list (jsstring * A) :=
  match l with
  | [] => []
  | x :: t => (of_nat i, x) :: indexed (S i) t
  end.

Definition entries (p : JSVal) : result (list (jsstring * JSVal)) :=
  match p with
  | JObj props => Ok props
  | JArr items => Ok (indexed 0 items)
  | JStr s => Ok (indexed 0 (map (fun c => JStr [c]) s))
  | JNum _ | JBool _ => Ok []
  | JUndefined | JNull => Throw TypeError
  end.

(* ===================================================================== *)
(** ** Signature synthesiser *)
(* ===================================================================== *)

Definition dquote : N := 34.

(** [v => (typeof v === 'string' ? `"${v}"` : v)], then the text [join]
    gives the result. *)
Definition enum_text (v : JSVal) : result jsstring :=
  match v with
  | JStr x => Ok ([dquote] +++ x +++ [dquote])
  | _ => join_text v
  end.

(** [r?.includes(k)] as a condition, for the value [r] of [s.required]. *)
Definition required_includes (r : JSVal) (k : jsstring) : result bool :=
  match r with
  | JUndefined | JNull => Ok false
  | JArr items =>
      Ok (existsb (fun v => match v with JStr x => eqb x k | _ => false end)
                  items)
  | JStr x => Ok (str_includes k x)
  | JBool _ | JNum _ | JObj _ => Throw TypeError
  end.

(** The last step of [toType]:
    [{ string: 'string', number: 'number', integer: 'number',
       boolean: 'boolean', null: 'null' }[s.type] || 'any']. *)
Definition scalar_table (key : jsstring) : rendered :=
  if eqb key (lit "string") then Text (lit "string")
  else if eqb key (lit "number") then Text (lit "number")
  else if eqb key (lit "integer") then Text (lit "number")
  else if eqb key (lit "boolean") then Text (lit "boolean")
  else if eqb key (lit "null") then Text (lit "null")
  else if includes Object_prototype_names key then Inherited key
  else Text (lit "any").

Definition is_str (v : JSVal) (x : jsstring) : bool :=
  match v with
  | JStr y => eqb y x
  | _ => false
  end.

(** The body of [toType], with [self] for the recursive calls:
    [[
    const toType = (s: any, d = 0): string => {
      if (!s) return 'any';
      if (s.enum)
        return s.enum
          .map((v: any) => (typeof v === 'string' ? `"${v}"` : v))
          .join(' | ');
      if (s.type === 'array')
        return s.items ? `(${toType(s.items, d + 1)})[]` : 'any[]';
      if (s.type === 'object') {
        if (!s.properties || d > 2) return '{ [key: string]: any }';
        return `{ ${Object.entries(s.properties)
          .map(([k, v]) =>
            `${k}${s.required?.includes(k) ? '' : '?'}: ${toType(v, d + 1)}`)
          .join('; ')} }`;
      }
      return ({ string: 'string', ... }[s.type as string] || 'any');
    };
    ]]
    [s.enum.map] on a truthy value that is not an array, and
    [s.required?.includes] on a number, a boolean or an object, are calls
    of [undefined] and raise [TypeError]. *)
Definition toType_body (self : JSVal -> nat -> result rendered)
  (s : JSVal) (d : nat) : result rendered :=
  if negb (truthy s) then Ok (Text (lit "any"))
  else if truthy (member s (lit "enum")) then
    match member s (lit "enum") with
    | JArr values =>
        rbind (rmap enum_text values)
              (fun texts => Ok (Text (join (lit " | ") texts)))
    | _ => Throw TypeError
    end
  else if is_str (member s (lit "type")) (lit "array") then
    if truthy (member s (lit "items")) then
      rbind (self (member s (lit "items")) (d + 1)%nat)
            (fun r => Ok (Text (lit "(" +++ text_of r +++ lit ")[]")))
    else Ok (Text (lit "any[]"))
  else if is_str (member s (lit "type")) (lit "object") then
    if negb (truthy (member s (lit "properties"))) || (2 <? d)%nat
    then Ok (Text (lit "{ [key: string]: any }"))
    else
      rbind (entries (member s (lit "properties"))) (fun kvs =>
      rbind (rmap (fun kv : jsstring * JSVal =>
                     rbind (required_includes (member s (lit "required"))
                                              (fst kv))
                           (fun req =>
                     rbind (self (snd kv) (d + 1)%nat) (fun r =>
                     Ok (fst kv +++ (if req then [] else lit "?")
                         +++ lit ": " +++ text_of r))))
                  kvs) (fun fields =>
      Ok (Text (lit "{ " +++ join (lit "; ") fields +++ lit " }"))))
  else
    rbind (toString (member s (lit "type")))
          (fun key => Ok (scalar_table key)).

(** Nesting depth of a value; the recursion of [toType] goes down by one
    level at a time. *)
Fixpoint height (v : JSVal) : nat :=
  match v with
  | JArr items => S (fold_right (fun x n => Nat.max (height x) n) 0%nat items)
  | JObj props =>
      S (fold_right (fun kv n => Nat.max (height (snd kv)) n) 0%nat props)
  | _ => 0%nat
  end.

(** [toType] unrolled [n] times.  The recursion goes down one level of the
    value at a time, so [S (height s)] rounds are enough for [s]; the
    answer of the round that is never reached is an error no part of the
    module raises. *)
Fixpoint toType_rec (n : nat) (s : JSVal) (d : nat) : result rendered :=
  match n with
  | O => Throw (Error (lit "toType_rec: no rounds left"))
  | S n' => toType_body (toType_rec n') s d
  end.

(** [const toType = (s: any, d = 0): string => ...].  [toType_unfold]
    shows that it satisfies the recursive equation of the source,
    [toType s d = toType_body toType s d]. *)
Definition toType (s : JSVal) (d : nat) : result rendered :=
  toType_rec (S (height s)) s d.

(* ===================================================================== *)
(** ** Data model *)
(* ===================================================================== *)

(** [interface ServerTool { name; description?; inputSchema }] *)
Record ServerTool : Type := {
  name : jsstring;
  description : option jsstring;
  inputSchema : JSVal
}.

(** Modelled from the spec: the types [Server] and [Servers] of
    [src/server/client], of which only the import is in the module.  The
    fields are the ones the module reads; they follow the spec's
    BackendConfig (a remote address or a command with arguments, optional
    header and environment maps, optional allow and deny lists).  [servers]
    is [None] for a configuration document without that member. *)
Record Codemode : Type := {
  allow : option (list jsstring);
  deny : option (list jsstring)
}.

Record Server : Type := {
  url : option jsstring;
  headers : option (list (jsstring * jsstring));
  env : option (list (jsstring * jsstring));
  command : option jsstring;
  args : option (list jsstring);
  codemode : option Codemode
}.

Record Servers : Type := {
  servers : option (list (jsstring * Server))
}.

(** An element of [toolRegistry]. *)
Module Entry.
Record t : Type := {
  serverName : jsstring;
  cfg : Server;
  tool : ServerTool
}.
End Entry.

(** The closure [(args) => executeTool(serverName, tool.name, args)]. *)
Inductive dispatch : Type :=
| Call (serverName toolName : jsstring).

(** A value of the map [prepareTools] builds: a function (the branch for a
    name without a dot), a namespace object, or a function that was given
    members.  The record holds own properties, and nothing else. *)
Record slot : Type := {
  callable : option dispatch;
  members : list (jsstring * dispatch)
}.

(** [interface ServerConfig { tools; interfaces; serverTools }] *)
Record ServerConfig : Type := {
  tools : list (jsstring * slot);
  interfaces : jsstring;
  serverTools : list (jsstring * ServerTool)
}.

Record McpServer : Type := {
  mcpName : jsstring;
  version : jsstring
}.

(** The two transports of [getClient], with what they are built from. *)
Inductive Transport : Type :=
| StreamableHTTPClientTransport
    (address : jsstring) (requestHeaders : option (list (jsstring * jsstring)))
| StdioClientTransport
    (program : option jsstring) (arguments : list jsstring)
    (environment : list (jsstring * jsstring)).

(** [new Client({ name, version: '1.0.0' })] together with the transport
    it is connected through. *)
Record Client : Type := {
  clientName : jsstring;
  transport : Transport
}.

(** The result of [client.callTool]. *)
Record CallToolResult : Type := {
  structuredContent : JSVal;
  content : JSVal
}.

(** Effects visible outside the module. *)
Inductive event : Type :=
| EvConnect (c : Client)
| EvListTools (c : Client)
| EvCallTool (c : Client) (toolName : jsstring) (arguments : JSVal)
| EvClose (c : Client)
| EvWarn (text : jsstring) (e : exn)
| EvError (text : jsstring) (e : exn)
| EvImport (file : jsstring)
| EvServe (s : McpServer).

(** The module-level variables, and the log of effects. *)
Record state : Type := {
  server : option McpServer;
  serverConfig : ServerConfig;
  toolRegistry : list Entry.t;
  log : list event
}.

(** [let server = null; let serverConfig = { tools: {}, interfaces: '',
    serverTools: {} }; let toolRegistry = []]. *)
Definition initial_state : state := {|
  server := None;
  serverConfig := {| tools := []; interfaces := []; serverTools := [] |};
  toolRegistry := [];
  log := []
|}.

(** What the module reads from its surroundings. *)
Record World : Type := {
  (** the variables of [process.env] that are set, with their values *)
  process_env : jsstring -> option jsstring;
  (** [readFile(path, 'utf8')] *)
  readFile : jsstring -> result jsstring;
  (** [JSON.parse(text)], used as a [Servers] *)
  JSON_parse : jsstring -> result Servers;
  (** whether [new URL(url)] accepts the address *)
  URL_valid : jsstring -> bool;
  (** [client.connect(transport)]: [None] when it resolves *)
  connect : Client -> option exn;
  (** [(await client.request({ method: 'tools/list' }, ...)).tools] *)
  listTools : Client -> result (list ServerTool);
  (** [client.callTool({ name, arguments }, CallToolResultSchema)] *)
  callTool : Client -> jsstring -> JSVal -> result CallToolResult;
  (** [client.close()]: [None] when it resolves *)
  close : Client -> option exn;
  (** the order in which the callbacks of [Promise.all] settle *)
  settle : list (jsstring * Server) -> list (jsstring * Server);
  (** [readdir(toolsDir)] *)
  readdir : result (list jsstring);
  (** [import(path.join(toolsDir, file))]: [None] when it resolves *)
  import_tool : jsstring -> option exn;
  (** [server.connect(new StdioServerTransport())] *)
  server_connect : option exn
}.

(* ===================================================================== *)
(** ** The state-and-exception monad *)
(* ===================================================================== *)

Definition M (A : Type) : Type := state -> result A * state.

Definition ret {A} (a : A) : M A := fun st => (Ok a, st).
Definition throw {A} (e : exn) : M A := fun st => (Throw e, st).

Definition bind {A B} (m : M A) (k : A -> M B) : M B :=
  fun st =>
    match m st with
    | (Ok a, st') => k a st'
    | (Throw e, st') => (Throw e, st')
    end.

Notation "x <- m ;; k" := (bind m (fun x => k))
  (at level 61, m at next level, right associativity).
Notation "m ;;; k" := (bind m (fun _ => k))
  (at level 61, right associativity).

(** [try { body } catch (e) { handler }] *)
Definition try_catch {A} (body : M A) (handler : exn -> M A) : M A :=
  fun st =>
    match body st with
    | (Ok a, st') => (Ok a, st')
    | (Throw e, st') => handler e st'
    end.

(** [try { body } finally { cleanup }]: the cleanup runs on every exit of
    the body; when it throws, its exception replaces the body's outcome. *)
Definition try_finally {A} (body : M A) (cleanup : M unit) : M A :=
  fun st =>
    match body st with
    | (r, st') =>
        match cleanup st' with
        | (Ok _, st'') => (r, st'')
        | (Throw e, st'') => (Throw e, st'')
        end
    end.

Definition lift {A} (r : result A) : M A := fun st => (r, st).

Definition emit (e : event) : M unit :=
  fun st => (Ok tt, {| server := server st;
                       serverConfig := serverConfig st;
                       toolRegistry := toolRegistry st;
                       log := log st ++ [e] |}).

Definition settled (o : option exn) : M unit :=
  match o with
  | None => ret tt
  | Some e => throw e
  end.

Definition get_state : M state := fun st => (Ok st, st).

Definition set_serverConfig (c : ServerConfig) : M unit :=
  fun st => (Ok tt, {| server := server st;
                       serverConfig := c;
                       toolRegistry := toolRegistry st;
                       log := log st |}).

Definition set_toolRegistry (r : list Entry.t) : M unit :=
  fun st => (Ok tt, {| server := server st;
                       serverConfig := serverConfig st;
                       toolRegistry := r;
                       log := log st |}).

Definition set_server (s : option McpServer) : M unit :=
  fun st => (Ok tt, {| server := s;
                       serverConfig := serverConfig st;
                       toolRegistry := toolRegistry st;
                       log := log st |}).

(** [for (const x of l) { await body(x) }] *)
Fixpoint for_each {A} (body : A -> M unit) (l : list A) : M unit :=
  match l with
  | [] => ret tt
  | x :: t => body x ;;; for_each body t
  end.

(** [obj[k] = v] on an object seen as its list of own properties: an
    existing property keeps its place, a new one goes last. *)
Fixpoint upsert {A} (k : jsstring) (v : A) (l : list (jsstring * A))
  : list (jsstring * A) :=
  match l with
  | [] => [(k, v)]
  | (k', v') :: t =>
      if eqb k k' then (k', v) :: t else (k', v') :: upsert k v t
  end.

(* ===================================================================== *)
(** ** Backend connector *)
(* ===================================================================== *)

(** [Object.fromEntries(
      Object.entries(m).map(([k, v]) => [k, expandEnv(v)]))] *)
Definition expand_values (w : World) (m : list (jsstring * jsstring))
  : list (jsstring * jsstring) :=
  map (fun kv => (fst kv, expandEnv (process_env w) (snd kv))) m.

(** [const expand = (c) => ({ ...c, ...(c.headers && { headers: ... }),
    ...(c.env && { env: ... }) })] *)
Definition expand (w : World) (c : Server) : Server := {|
  url := url c;
  headers := option_map (expand_values w) (headers c);
  env := option_map (expand_values w) (env c);
  command := command c;
  args := args c;
  codemode := codemode c
|}.

(** The transport [getClient] builds from the expanded configuration; an
    address that [new URL] rejects raises [TypeError]. *)
Definition make_transport (w : World) (c : Server) : result Transport :=
  match url c with
  | Some ((_ :: _) as address) =>
      if URL_valid w address
      then Ok (StreamableHTTPClientTransport address (headers c))
      else Throw TypeError
  | _ =>
      Ok (StdioClientTransport
            (command c)
            (match args c with Some a => a | None => [] end)
            (upsert (lit "NODE_NO_WARNINGS") (lit "1")
                    (match env c with Some e => e | None => [] end)))
  end.

Definition client_connect (w : World) (client : Client) : M unit :=
  emit (EvConnect client) ;;; settled (connect w client).

Definition client_close (w : World) (client : Client) : M unit :=
  emit (EvClose client) ;;; settled (close w client).

(** [[
    const getClient = async (cfg, name, cb) => {
      const { url, headers, env, command, args } = expand(cfg);
      const transport = url ? new StreamableHTTPClientTransport(...)
                            : new StdioClientTransport(...);
      const client = new Client({ name, version: '1.0.0' });
      try {
        await client.connect(transport);
        return await cb(client);
      } finally {
        await client.close();
      }
    };
    ]] *)
Definition getClient {T} (w : World) (cfg : Server) (name : jsstring)
  (cb : Client -> M T) : M T :=
  transport <- lift (make_transport w (expand w cfg)) ;;
  let client := {| clientName := name; transport := transport |} in
  try_finally (client_connect w client ;;; cb client)
              (client_close w client).

(** The callback of the aggregator:
    [(client) => (await client.request({ method: 'tools/list' }, ...)).tools] *)
Definition request_tools (w : World) (client : Client)
  : M (list ServerTool) :=
  emit (EvListTools client) ;;; lift (listTools w client).

(** The callback of the router:
    [(client) => client.callTool({ name: toolName, arguments: args }, ...)] *)
Definition call_tool (w : World) (toolName : jsstring) (arguments : JSVal)
  (client : Client) : M CallToolResult :=
  emit (EvCallTool client toolName arguments) ;;;
  lift (callTool w client toolName arguments).

(* ===================================================================== *)
(** ** Invocation router *)
(* ===================================================================== *)

(** [[
    export const executeTool = async (serverName, toolName, args) => {
      const entry = toolRegistry.find(
        (e) => e.serverName === serverName && e.tool.name === toolName);
      if (!entry) throw new Error(`Tool ${serverName}.${toolName} not found`);
      const result = await getClient(entry.cfg, serverName, async (client) =>
        client.callTool({ name: toolName, arguments: args }, ...));
      return result.structuredContent || result.content;
    };
    ]] *)
Definition executeTool (w : World) (serverName toolName : jsstring)
  (arguments : JSVal) : M JSVal :=
  st <- get_state ;;
  match find (fun e => eqb (Entry.serverName e) serverName
                       && eqb (name (Entry.tool e)) toolName)
             (toolRegistry st) with
  | None =>
      throw (Error (lit "Tool " +++ serverName +++ lit "." +++ toolName
                    +++ lit " not found"))
  | Some entry =>
      result <- getClient w (Entry.cfg entry) serverName
                          (call_tool w toolName arguments) ;;
      ret (js_or (structuredContent result) (content result))
  end.

(* ===================================================================== *)
(** ** Published views: dispatch map and interface text *)
(* ===================================================================== *)

Definition empty_object : slot := {| callable := None; members := [] |}.

(** [[
    const prepareTools = (tools) => {
      const out = {};
      for (const [name, fn] of Object.entries(tools)) {
        const parts = name.split('.');
        if (parts.length > 1) {
          const ns = sanitize(parts[0]);
          const tool = parts.slice(1).map(sanitize).join('_');
          out[ns] = out[ns] || {};
          out[ns][tool] = fn;
        } else {
          out[sanitize(name)] = fn;
        }
      }
      return out;
    };
    ]]
    The map and its namespaces are objects seen as lists of own
    properties, which is what the loop builds as long as neither a
    namespace nor a tool key is the name of a member of [Object.prototype]
    ([Object_prototype_names]).  For such a name [out[ns]] finds the
    inherited member, and the two assignments store on a built-in object
    that every other object shares, or raise [TypeError]; the shared
    built-in objects are not part of the state, so this definition does
    not describe those runs, and the properties of the map are stated
    for names that are not inherited ([own_names], [own_entry]). *)
Definition prepare_step (out : list (jsstring * slot))
  (entry : jsstring * dispatch) : list (jsstring * slot) :=
  let parts := split dot (fst entry) in
  if (1 <? List.length parts)%nat then
    let ns := sanitize (hd [] parts) in
    let tool := flatten_tail parts in
    let current := match assoc ns out with
                   | Some o => o
                   | None => empty_object
                   end in
    upsert ns {| callable := callable current;
                 members := upsert tool (snd entry) (members current) |} out
  else
    upsert (sanitize (fst entry))
           {| callable := Some (snd entry); members := [] |} out.

Definition prepareTools (tools : list (jsstring * dispatch))
  : list (jsstring * slot) :=
  fold_left prepare_step tools [].

(** [`${tool.description}`]: an absent description prints as
    [undefined]. *)
Definition description_text (d : option jsstring) : jsstring :=
  match d with
  | Some t => t
  | None => lit "undefined"
  end.

(** [[
    const generateInterface = (tool) => {
      const parts = tool.name.split('.');
      return parts.length > 1
        ? `namespace ${sanitize(parts[0])} { /* ${tool.description} */ function ${parts.slice(1).map(sanitize).join('_')}(args: ${toType(tool.inputSchema)}): Promise<any>; }`
        : `/* ${tool.description} */ function ${sanitize(tool.name)}(args: ${toType(tool.inputSchema)}): Promise<any>;`;
    };
    ]] *)
Definition generateInterface (tool : ServerTool) : result jsstring :=
  let parts := split dot (name tool) in
  if (1 <? List.length parts)%nat then
    rbind (toType (inputSchema tool) 0) (fun signature =>
    Ok (lit "namespace " +++ sanitize (hd [] parts) +++ lit " { /* "
        +++ description_text (description tool) +++ lit " */ function "
        +++ flatten_tail parts +++ lit "(args: " +++ text_of signature
        +++ lit "): Promise<any>; }"))
  else
    rbind (toType (inputSchema tool) 0) (fun signature =>
    Ok (lit "/* " +++ description_text (description tool)
        +++ lit " */ function " +++ sanitize (name tool) +++ lit "(args: "
        +++ text_of signature +++ lit "): Promise<any>;")).

Definition newline : N := 10.

(** [tools.map(generateInterface).join('\n')] *)
Definition generateInterfaces (tools : list ServerTool) : result jsstring :=
  rbind (rmap generateInterface tools)
        (fun texts => Ok (join [newline] texts)).

(* ===================================================================== *)
(** ** Catalog aggregator *)
(* ===================================================================== *)

(** [cfg.codemode?.allow] and [cfg.codemode?.deny]. *)
Definition allow_of (cfg : Server) : option (list jsstring) :=
  match codemode cfg with
  | Some c => allow c
  | None => None
  end.

Definition deny_of (cfg : Server) : option (list jsstring) :=
  match codemode cfg with
  | Some c => deny c
  | None => None
  end.

(** [[
    const filteredTools = cfg.codemode?.allow
      ? serverTools.filter((t) => cfg.codemode?.allow?.includes(t.name))
      : serverTools.filter((t) => !cfg.codemode?.deny?.includes(t.name));
    ]] *)
Definition filteredTools (cfg : Server) (serverTools : list ServerTool)
  : list ServerTool :=
  match allow_of cfg with
  | Some allowed => filter (fun t => includes allowed (name t)) serverTools
  | None =>
      filter (fun t => negb (match deny_of cfg with
                             | Some denied => includes denied (name t)
                             | None => false
                             end))
             serverTools
  end.

(** The two local variables of [getAllServerTools]. *)
Record locals : Type := {
  rawTools : list (jsstring * dispatch);
  toolList : list ServerTool
}.

(** What the aggregator keeps of a tool: its three declared fields. *)
Definition plain (tool : ServerTool) : ServerTool := {|
  name := name tool;
  description := description tool;
  inputSchema := inputSchema tool
|}.

(** The body of [filteredTools.forEach((tool) => { ... })]. *)
Definition register_tool (serverName : jsstring) (cfg : Server)
  (acc : locals) (tool : ServerTool) : M locals :=
  st <- get_state ;;
  set_serverConfig
    {| tools := tools (serverConfig st);
       interfaces := interfaces (serverConfig st);
       serverTools :=
         upsert (callableName serverName (name tool))
                {| name := callableName serverName (name tool);
                   description := description tool;
                   inputSchema := inputSchema tool |}
                (serverTools (serverConfig st)) |} ;;;
  set_toolRegistry
    (toolRegistry st ++ [{| Entry.serverName := serverName;
                            Entry.cfg := cfg;
                            Entry.tool := plain tool |}]) ;;;
  ret {| rawTools := upsert (fullName serverName (name tool))
                            (Call serverName (name tool)) (rawTools acc);
         toolList := toolList acc
                     ++ [{| name := fullName serverName (name tool);
                            description := description tool;
                            inputSchema := inputSchema tool |}] |}.

Fixpoint fold_M {A B} (f : B -> A -> M B) (l : list A) (acc : B) : M B :=
  match l with
  | [] => ret acc
  | x :: t => acc' <- f acc x ;; fold_M f t acc'
  end.

(** One callback of [Promise.all]: the [try] with the connector call, the
    filter and the [forEach], and the [catch] with its warning. *)
Definition aggregate_backend (w : World) (acc : locals)
  (backend : jsstring * Server) : M locals :=
  let serverName := fst backend in
  let cfg := snd backend in
  try_catch
    (serverTools <- getClient w cfg serverName (request_tools w) ;;
     fold_M (register_tool serverName cfg) (filteredTools cfg serverTools) acc)
    (fun e =>
       emit (EvWarn (lit "Failed to connect to " +++ serverName +++ lit ":")
                    e) ;;;
       ret acc).

(** [[
    const getAllServerTools = async (input) => {
      const rawTools = {};
      const toolList = [];
      await Promise.all(Object.entries(input.servers).map(async (...) => ...));
      serverConfig.tools = prepareTools(rawTools);
      serverConfig.interfaces = generateInterfaces(toolList);
    };
    ]]
    [Object.entries(undefined)] raises [TypeError]. *)
Definition getAllServerTools (w : World) (input : Servers) : M unit :=
  match servers input with
  | None => throw TypeError
  | Some backends =>
      acc <- fold_M (aggregate_backend w) (settle w backends)
                    {| rawTools := []; toolList := [] |} ;;
      st <- get_state ;;
      set_serverConfig
        {| tools := prepareTools (rawTools acc);
           interfaces := interfaces (serverConfig st);
           serverTools := serverTools (serverConfig st) |} ;;;
      text <- lift (generateInterfaces (toolList acc)) ;;
      st' <- get_state ;;
      set_serverConfig
        {| tools := tools (serverConfig st');
           interfaces := text;
           serverTools := serverTools (serverConfig st') |}
  end.

(* ===================================================================== *)
(** ** Start-up *)
(* ===================================================================== *)

(** [[
    const registerTools = async () => {
      try {
        const toolsDir = ...;
        const toolFiles = (await readdir(toolsDir)).filter(
          (file) => file.endsWith('.js') || file.endsWith('.ts'));
        for (const file of toolFiles) await import(path.join(toolsDir, file));
      } catch (error) {
        console.error('Error registering tools:', error);
        throw error;
      }
    };
    ]] *)
Definition registerTools (w : World) : M unit :=
  try_catch
    (files <- lift (readdir w) ;;
     for_each (fun file =>
                 emit (EvImport file) ;;; settled (import_tool w file))
              (filter (fun file => endsWith (lit ".js") file
                                   || endsWith (lit ".ts") file) files))
    (fun error =>
       emit (EvError (lit "Error registering tools:") error) ;;; throw error).

(** [process.env.CODEMODE_SERVERS || ''] *)
Definition config_path (w : World) : jsstring :=
  match process_env w (lit "CODEMODE_SERVERS") with
  | Some p => p
  | None => []
  end.

(** [text || '{}'] *)
Definition or_empty_document (text : jsstring) : jsstring :=
  match text with
  | [] => lit "{}"
  | _ => text
  end.

(** [[
    export const init = async () => {
      const servers = JSON.parse(
        (await readFile(process.env.CODEMODE_SERVERS || '', 'utf8')) || '{}');
      await getAllServerTools(servers);
      server = new McpServer({ name: 'codemode', version: '1.0.0' });
      await registerTools();
      await server.connect(new StdioServerTransport());
    };
    ]] *)
Definition init (w : World) : M unit :=
  text <- lift (readFile w (config_path w)) ;;
  input <- lift (JSON_parse w (or_empty_document text)) ;;
  getAllServerTools w input ;;;
  let s := {| mcpName := lit "codemode"; version := lit "1.0.0" |} in
  set_server (Some s) ;;;
  registerTools w ;;;
  emit (EvServe s) ;;;
  settled (server_connect w).

(* ===================================================================== *)
(** ** Vocabulary of the properties *)
(* ===================================================================== *)

(** A value that is neither an array nor an object. *)
Definition scalar (v : JSVal) : bool :=
  match v with
  | JArr _ | JObj _ => false
  | _ => true
  end.

(** An [enum] member [toType] can render: falsy (absent, for one), or an
    array of scalars. *)
Definition enum_ok (e : JSVal) : bool :=
  match e with
  | JArr values => forallb scalar values
  | _ => negb (truthy e)
  end.

(** A [required] member that can be asked [includes]: absent, [null], an
    array or a string. *)
Definition required_ok (r : JSVal) : bool :=
  match r with
  | JUndefined | JNull | JArr _ | JStr _ => true
  | JBool _ | JNum _ | JObj _ => false
  end.

(** A [type] member the lookup table maps to a text: absent, [null], a
    boolean, a number, or a string that is not the name of a member of
    [Object.prototype]. *)
Definition type_ok (t : JSVal) : bool :=
  match t with
  | JUndefined | JNull | JBool _ | JNum _ => true
  | JStr x => negb (includes Object_prototype_names x)
  | JArr _ | JObj _ => false
  end.

(** Schemas on which [toType] is shown to return a text: at every object
    of the value, [enum], [required] and [type] are as above.
    [properties], [items] and every other member may have any shape. *)
Fixpoint schema_ok (v : JSVal) : bool :=
  match v with
  | JObj props =>
      enum_ok (member v (lit "enum"))
      && required_ok (member v (lit "required"))
      && type_ok (member v (lit "type"))
      && forallb (fun kv => schema_ok (snd kv)) props
  | JArr items => forallb schema_ok items
  | _ => true
  end.

(** A value [ToString] converts: on the way through arrays it meets no
    object with a [toString] member of its own. *)
Fixpoint printable (v : JSVal) : bool :=
  match v with
  | JArr items => forallb printable items
  | JObj props =>
      match assoc (lit "toString") props with
      | Some _ => false
      | None => true
      end
  | _ => true
  end.

(** The value of [type] prints as the name of a member of
    [Object.prototype]. *)
Definition names_inherited (t : JSVal) : bool :=
  match toString t with
  | Ok key => includes Object_prototype_names key
  | Throw _ => false
  end.

(** The check of one schema node, along the path [toType] takes through
    it, with [self] for the nodes below: the members [toType] does not
    read at the node are not looked at.
    - A truthy [enum] is an array of printable values.
    - [items] of an array schema, when truthy, passes the check.
    - In an object schema that is expanded ([properties] truthy, depth at
      most 2) every value of [properties] passes the check, and
      [required], when there is a property to ask it about, is absent,
      [null], an array or a string.
    - A [type] that goes to the lookup table is printable and, at the
      root, does not name an inherited member (below the root the member
      is put into the text of the enclosing signature). *)
Definition well_formed_body (self : JSVal -> nat -> bool)
  (root : bool) (s : JSVal) (d : nat) : bool :=
  if negb (truthy s) then true
  else if truthy (member s (lit "enum")) then
    match member s (lit "enum") with
    | JArr values => forallb printable values
    | _ => false
    end
  else if is_str (member s (lit "type")) (lit "array") then
    if truthy (member s (lit "items"))
    then self (member s (lit "items")) (d + 1)%nat
    else true
  else if is_str (member s (lit "type")) (lit "object") then
    if negb (truthy (member s (lit "properties"))) || (2 <? d)%nat then true
    else
      match entries (member s (lit "properties")) with
      | Ok [] => true
      | Ok kvs =>
          required_ok (member s (lit "required"))
          && forallb (fun kv => self (snd kv) (d + 1)%nat) kvs
      | Throw _ => false
      end
  else
    printable (member s (lit "type"))
    && negb (root && names_inherited (member s (lit "type"))).

(** The check unrolled [n] times; only the outermost node is the root. *)
Fixpoint well_formed_rec (n : nat) (root : bool) (s : JSVal) (d : nat)
  : bool :=
  match n with
  | O => false
  | S n' => well_formed_body (well_formed_rec n' false) root s d
  end.

(** The check of a schema value handed to [toType] at depth [d], and the
    check of a node below it. *)
Definition well_formed (s : JSVal) (d : nat) : bool :=
  well_formed_rec (S (height s)) true s d.

Definition well_formed_below (s : JSVal) (d : nat) : bool :=
  well_formed_rec (S (height s)) false s d.

(** Some [${] of [s] has no closing brace behind it in [s]: text put
    behind [s] is read into a placeholder that starts inside [s]. *)
Fixpoint unclosed (s : jsstring) : bool :=
  match s with
  | [] => false
  | c :: t =>
      match t with
      | c2 :: name =>
          (c =? dollar) && (c2 =? lbrace) && negb (existsb (N.eqb rbrace) name)
      | [] => false
      end
      || unclosed t
  end.

(** The result is a value, or the exception is [TypeError]. *)
Definition returns_or_TypeError {A} (r : result A) : Prop :=
  (exists a, r = Ok a) \/ r = Throw TypeError.

(** The event of a [client.close()]. *)
Definition is_close (e : event) : bool :=
  match e with
  | EvClose _ => true
  | _ => false
  end.

(** The number of sessions closed in a stretch of the log. *)
Definition closes (l : list event) : nat := List.length (filter is_close l).

(** A callback that leaves closing to the connector: it adds to the log,
    and nothing it adds closes a session. *)
Definition leaves_closing {T} (cb : Client -> M T) : Prop :=
  forall c st, exists evs,
      log (snd (cb c st)) = log st ++ evs /\ closes evs = 0%nat.

(** The tool list of a backend whose listing succeeds: the transport can
    be built, the session opens, the request is answered and the session
    closes.  [None] for a backend that fails at any of these. *)
Definition backend_tools (w : World) (backend : jsstring * Server)
  : option (list ServerTool) :=
  match make_transport w (expand w (snd backend)) with
  | Throw _ => None
  | Ok tr =>
      let client := {| clientName := fst backend; transport := tr |} in
      match connect w client, listTools w client, close w client with
      | None, Ok serverTools, None => Some serverTools
      | _, _, _ => None
      end
  end.

(** The registry entry of a tool of a backend. *)
Definition entry_of (backend : jsstring * Server) (tool : ServerTool)
  : Entry.t :=
  {| Entry.serverName := fst backend;
     Entry.cfg := snd backend;
     Entry.tool := plain tool |}.

(** The catalog item of a tool of a backend, under its full name. *)
Definition listed (backend : jsstring * Server) (tool : ServerTool)
  : ServerTool :=
  {| name := fullName (fst backend) (name tool);
     description := description tool;
     inputSchema := inputSchema tool |}.

(** The tools of a backend that survive its filter: none for a backend
    that fails. *)
Definition surviving (w : World) (backend : jsstring * Server)
  : list ServerTool :=
  match backend_tools w backend with
  | Some serverTools => filteredTools (snd backend) serverTools
  | None => []
  end.

(** What a backend adds to [toolRegistry]. *)
Definition contribution (w : World) (backend : jsstring * Server)
  : list Entry.t :=
  map (entry_of backend) (surviving w backend).

(** What a backend adds to the local [toolList]. *)
Definition catalog (w : World) (backend : jsstring * Server)
  : list ServerTool :=
  map (listed backend) (surviving w backend).

(** Names for which the model of [prepareTools] is exact: neither the
    namespace nor the flattened tool name is inherited from
    [Object.prototype]. *)
Definition own_names (tools : list ServerTool) : bool :=
  forallb (fun t =>
             negb (includes Object_prototype_names
                            (sanitize (hd [] (split dot (name t)))))
             && negb (includes Object_prototype_names
                               (flatten_tail (split dot (name t)))))
          tools.

(** The claim of C1 for one world: start-up completes, with an empty
    registry. *)
Definition starts_empty (w : World) : Prop :=
  exists st', init w initial_state = (Ok tt, st') /\ toolRegistry st' = [].

(* ===================================================================== *)
(** ** Vocabulary of the further properties *)
(* ===================================================================== *)

(** A name made of word characters that does not start with a digit (the
    empty name included). *)
Definition legal (s : jsstring) : bool :=
  forallb is_word s
  && negb (match s with
           | c :: _ => is_digit c
           | [] => false
           end).

(** The names of the placeholders of [s]: what the pattern of [expandEnv]
    captures at each of its matches, from left to right. *)
Equations placeholders (s : jsstring) : list jsstring
  by wf (List.length s) lt :=
  placeholders [] := [];
  placeholders (c :: t) with inspect (match_placeholder (c :: t)) := {
    | exist _ (Some (v, rest)) _ => v :: placeholders rest
    | exist _ None _ => placeholders t }.
Next Obligation.
  assert (L : forall s a b, span_until rbrace s = (a, b) ->
                            (List.length a + List.length b
                             = List.length s)%nat).
  { induction s as [|x s IH]; simpl; intros a b H.
    - inversion H; reflexivity.
    - destruct (x =? rbrace).
      + inversion H; reflexivity.
      + destruct (span_until rbrace s) as [a' b'].
        inversion H; subst. simpl. rewrite (IH a' b eq_refl). reflexivity. }
  change (match_placeholder (c :: t) = Some (v, rest)) in e.
  unfold match_placeholder in e.
  destruct t as [|c2 t]; [discriminate|].
  destruct ((c =? dollar) && (c2 =? lbrace)); [|discriminate].
  destruct (span_until rbrace t) as [a b] eqn:E. apply L in E.
  destruct a as [|x a]; [discriminate|].
  destruct b as [|y b]; [discriminate|].
  inversion e; subst. simpl in *. lia.
Qed.

(** [process.env[v]] is falsy: the variable is set to the empty string, or
    it is not set and nothing is inherited under its name. *)
Definition falsy_variable (env : jsstring -> option jsstring) (v : jsstring)
  : Prop :=
  env v = Some []
  \/ (env v = None /\ includes Object_prototype_names v = false).

(** [out[ns]?.[tool]] in the map [prepareTools] builds, for a namespace and
    a tool key that are not inherited names: the own property, when there
    is one. *)
Definition dispatch_of (out : list (jsstring * slot)) (ns tool : jsstring)
  : option dispatch :=
  match assoc ns out with
  | Some o => assoc tool (members o)
  | None => None
  end.

(** The namespace and the tool key under which a full name is filed. *)
Definition namespace_of (full : jsstring) : jsstring :=
  sanitize (hd [] (split dot full)).

Definition tool_key_of (full : jsstring) : jsstring :=
  flatten_tail (split dot full).

(** The event of a [client.connect(transport)]. *)
Definition is_open (e : event) : bool :=
  match e with
  | EvConnect _ => true
  | _ => false
  end.

(** The number of sessions opened in a stretch of the log. *)
Definition opens (l : list event) : nat := List.length (filter is_open l).

(** As many sessions closed as opened. *)
Definition balanced (evs : list event) : Prop := opens evs = closes evs.

(** Every event is of an admitted kind. *)
Definition only (admitted : event -> bool) (evs : list event) : Prop :=
  forallb admitted evs = true.

(** The events of listing: a session, the tool-list request, a warning. *)
Definition listing_event (e : event) : bool :=
  match e with
  | EvConnect _ | EvListTools _ | EvClose _ | EvWarn _ _ => true
  | _ => false
  end.

(** The events of one invocation: a session and the call. *)
Definition calling_event (e : event) : bool :=
  match e with
  | EvConnect _ | EvCallTool _ _ _ | EvClose _ => true
  | _ => false
  end.


(** A property of stretches of the log that holds of the empty stretch and
    of the concatenation of two stretches that have it. *)
Class Additive (P : list event -> Prop) : Prop := {
  additive_nil : P [];
  additive_app : forall a b, P a -> P b -> P (a ++ b)
}.

(** A computation that, from every state, appends to the log a stretch with
    the property [P]. *)
Definition adds {A} (P : list event -> Prop) (m : M A) : Prop :=
  forall st, exists evs, log (snd (m st)) = log st ++ evs /\ P evs.

(** A computation that writes to the log only: the three module-level
    variables are left as they are. *)
Definition only_logs {A} (m : M A) : Prop :=
  forall st,
    server (snd (m st)) = server st
    /\ serverConfig (snd (m st)) = serverConfig st
    /\ toolRegistry (snd (m st)) = toolRegistry st.

(** The state with one more event in its log. *)
Definition logged (st : state) (evs : list event) : state := {|
  server := server st;
  serverConfig := serverConfig st;
  toolRegistry := toolRegistry st;
  log := log st ++ evs
|}.

(** The tool files [registerTools] imports: those that end in [.js] or
    [.ts]. *)
Definition tool_files (files : list jsstring) : list jsstring :=
  filter (fun file => endsWith (lit ".js") file || endsWith (lit ".ts") file)
         files.

(** The error of the first import that fails, if one does. *)
Fixpoint import_failure (w : World) (files : list jsstring) : option exn :=
  match files with
  | [] => None
  | file :: rest =>
      match import_tool w file with
      | Some e => Some e
      | None => import_failure w rest
      end
  end.

(** The files whose import is attempted: all of them up to and including
    the first that fails. *)
Fixpoint attempted (w : World) (files : list jsstring) : list jsstring :=
  match files with
  | [] => []
  | file :: rest =>
      file :: match import_tool w file with
              | Some _ => []
              | None => attempted w rest
              end
  end.



(** Neither of the two keys under which [prepareTools] files a full name
    is the name of a member of [Object.prototype]. *)
Definition own_entry (full : jsstring) : bool :=
  negb (includes Object_prototype_names (namespace_of full))
  && negb (includes Object_prototype_names (tool_key_of full)).

(** No tool of the registry is filed under an inherited name.  The
    registry records every tool a pass has handed to [prepareTools], so
    in such a state no pass has read or stored through
    [Object.prototype]. *)
Definition registry_own (st : state) : bool :=
  forallb (fun e => own_entry (fullName (Entry.serverName e)
                                        (name (Entry.tool e))))
          (toolRegistry st).

(** A name with at least two segments: [parts.length > 1]. *)
Definition dotted (full : jsstring) : bool :=
  (1 <? List.length (split dot full))%nat.

(** The closure filed last under a namespace and a tool key, among the
    entries of the map handed to [prepareTools]. *)
Fixpoint last_filed (entries : list (jsstring * dispatch))
  (ns key : jsstring) : option dispatch :=
  match entries with
  | [] => None
  | (full, fn) :: rest =>
      match last_filed rest ns key with
      | Some later => Some later
      | None =>
          if eqb ns (namespace_of full) && eqb key (tool_key_of full)
          then Some fn else None
      end
  end.

(** [serverConfig.serverTools[callableName] =
      { ...tool, name: callableName }] *)
Definition publish (serverName : jsstring)
  (published : list (jsstring * ServerTool)) (tool : ServerTool)
  : list (jsstring * ServerTool) :=
  upsert (callableName serverName (name tool))
         {| name := callableName serverName (name tool);
            description := description tool;
            inputSchema := inputSchema tool |}
         published.

(** [rawTools[fullName] = (args) => executeTool(serverName, tool.name, args)] *)
Definition file_call (serverName : jsstring)
  (raw : list (jsstring * dispatch)) (tool : ServerTool)
  : list (jsstring * dispatch) :=
  upsert (fullName serverName (name tool)) (Call serverName (name tool)) raw.

(** [serverTools] and [rawTools] after the surviving tools of the given
    backends have been recorded, backend after backend. *)
Definition published_tools (w : World) (backends : list (jsstring * Server))
  (base : list (jsstring * ServerTool)) : list (jsstring * ServerTool) :=
  fold_left (fun m b => fold_left (publish (fst b)) (surviving w b) m)
            backends base.

Definition raw_tools (w : World) (backends : list (jsstring * Server))
  (base : list (jsstring * dispatch)) : list (jsstring * dispatch) :=
  fold_left (fun r b => fold_left (file_call (fst b)) (surviving w b) r)
            backends base.

(** Every key of [serverTools] is the name of the tool it is bound to. *)
Definition keyed (published : list (jsstring * ServerTool)) : Prop :=
  Forall (fun kv => name (snd kv) = fst kv) published.


(* ===================================================================== *)
(** ** Example worlds *)
(* ===================================================================== *)

(** A backend started as a local process, and a tool without
    description. *)
Definition local (program : string) (mode : option Codemode) : Server := {|
  url := None;
  headers := None;
  env := None;
  command := Some (lit program);
  args := None;
  codemode := mode
|}.

Definition tool_named (n : string) (schema : JSVal) : ServerTool := {|
  name := lit n;
  description := None;
  inputSchema := schema
|}.

(** [{ type: "object", properties: { n: { type: "number" } },
       required: ["n"] }] *)
Definition number_schema : JSVal :=
  JObj [(lit "type", JStr (lit "object"));
        (lit "properties",
         JObj [(lit "n", JObj [(lit "type", JStr (lit "number"))])]);
        (lit "required", JArr [JStr (lit "n")])].

(** [{ type: "object", properties: { color: { enum: "red" } } }] *)
Definition color_schema : JSVal :=
  JObj [(lit "type", JStr (lit "object"));
        (lit "properties",
         JObj [(lit "color", JObj [(lit "enum", JStr (lit "red"))])])].

(** The session runs the given program. *)
Definition runs (c : Client) (program : string) : bool :=
  match transport c with
  | StdioClientTransport (Some p) _ _ => eqb p (lit program)
  | _ => false
  end.

(** A world with no configuration file, in which the program [y] cannot
    be reached, every other backend lists [listing], and the tool [fail]
    reports an error. *)
Definition example_world (listing : list ServerTool) : World := {|
  process_env := fun _ => None;
  readFile := fun _ => Throw (Failure (lit "ENOENT"));
  JSON_parse := fun _ => Throw SyntaxError;
  URL_valid := fun _ => true;
  connect := fun c => if runs c "y"
                      then Some (Failure (lit "ECONNREFUSED")) else None;
  listTools := fun _ => Ok listing;
  callTool := fun _ toolName _ =>
                if eqb toolName (lit "fail")
                then Throw (Failure (lit "tool failed"))
                else Ok {| structuredContent := JObj [(lit "sum", JNum 3)];
                           content := JArr [JStr (lit "3")] |};
  close := fun _ => None;
  settle := fun backends => backends;
  readdir := Ok [];
  import_tool := fun _ => None;
  server_connect := None
|}.

(** Two configured backends, their session, and a state in which tools
    of the first are registered. *)
Definition backend_X : jsstring * Server := (lit "X", local "x" None).
Definition backend_Y : jsstring * Server := (lit "Y", local "y" None).

Definition session_of_X : Client := {|
  clientName := lit "X";
  transport := StdioClientTransport (Some (lit "x")) []
                 [(lit "NODE_NO_WARNINGS", lit "1")]
|}.

Definition registered (listing : list ServerTool) : state := {|
  server := None;
  serverConfig := {| tools := []; interfaces := []; serverTools := [] |};
  toolRegistry := map (entry_of backend_X) listing;
  log := []
|}.

(** The session of the backend that cannot be reached. *)
Definition session_of_Y : Client := {|
  clientName := lit "Y";
  transport := StdioClientTransport (Some (lit "y")) []
                 [(lit "NODE_NO_WARNINGS", lit "1")]
|}.

(** An object schema with one declared property. *)
Definition nested_schema (inner : JSVal) : JSVal :=
  JObj [(lit "type", JStr (lit "object"));
        (lit "properties", JObj [(lit "p", inner)])].

(* ===================================================================== *)
(** * Properties *)
(* ===================================================================== *)

(** ** Strings *)

Lemma eqb_eq (a b : jsstring) : eqb a b = true <-> a = b.
Proof.
  revert b; induction a as [|x a IH]; intros [|y b]; simpl;
    try (split; [discriminate | discriminate]); try tauto.
  rewrite andb_true_iff, N.eqb_eq, IH.
  split; [intros [-> ->]; reflexivity | intros H; inversion H; auto].
Qed.

Lemma eqb_refl (a : jsstring) : eqb a a = true.
Proof. apply eqb_eq; reflexivity. Qed.

Lemma eqb_neq (a b : jsstring) : eqb a b = false <-> a <> b.
Proof.
  rewrite <- eqb_eq. destruct (eqb a b); split; congruence.
Qed.

Lemma includes_In (l : list jsstring) (x : jsstring) :
  includes l x = true <-> In x l.
Proof.
  unfold includes. rewrite existsb_exists. split.
  - intros [y [Hy E]]. apply eqb_eq in E. subst; assumption.
  - intros H. exists x. split; [assumption | apply eqb_refl].
Qed.

Lemma split_nonempty sep s : split sep s <> [].
Proof.
  destruct s as [|c t]; simpl; [discriminate|].
  destruct (c =? sep); [discriminate|].
  destruct (split sep t); discriminate.
Qed.

(** Splitting at the first separator: a prefix without the separator
    becomes the first part. *)
Lemma split_app sep a b :
  ~ In sep a -> split sep (a ++ sep :: b) = a :: split sep b.
Proof.
  induction a as [|c a IH]; simpl; intros H.
  - rewrite N.eqb_refl. reflexivity.
  - destruct (N.eqb_spec c sep) as [->|_]; [tauto|].
    rewrite IH by tauto. reflexivity.
Qed.

Lemma app_sep_inj (sep : N) (a a' b b' : jsstring) :
  ~ In sep a -> ~ In sep a' ->
  a ++ sep :: b = a' ++ sep :: b' -> a = a' /\ b = b'.
Proof.
  revert a'; induction a as [|c a IH]; intros [|c' a'] Ha Ha' E; simpl in *.
  - inversion E; auto.
  - inversion E; subst. tauto.
  - inversion E; subst. tauto.
  - inversion E; subst.
    destruct (IH a') as [-> ->]; try tauto.
Qed.

(** ** Sanitiser *)

Lemma is_word_underscore : is_word underscore = true.
Proof. reflexivity. Qed.

Lemma is_digit_word c : is_digit c = true -> is_word c = true.
Proof. unfold is_word. intros ->. reflexivity. Qed.

Lemma replace_nonword_words s :
  Forall (fun c => is_word c = true) (replace_nonword s).
Proof.
  induction s as [|c s IH]; simpl; constructor; [|exact IH].
  destruct (is_word c) eqn:E; [exact E | reflexivity].
Qed.

Lemma replace_nonword_fixed s :
  Forall (fun c => is_word c = true) s -> replace_nonword s = s.
Proof.
  induction 1 as [|c s Hc _ IH]; simpl; [reflexivity|].
  rewrite Hc. f_equal. exact IH.
Qed.

Lemma prefix_digit_words s :
  Forall (fun c => is_word c = true) s ->
  Forall (fun c => is_word c = true) (prefix_digit s).
Proof.
  destruct s as [|c s]; simpl; intros H; [constructor|].
  destruct (is_digit c); [constructor; [reflexivity | exact H] | exact H].
Qed.

Lemma sanitize_words s : Forall (fun c => is_word c = true) (sanitize s).
Proof. apply prefix_digit_words, replace_nonword_words. Qed.

Lemma prefix_digit_fixed s : prefix_digit (prefix_digit s) = prefix_digit s.
Proof.
  destruct s as [|c s]; simpl; [reflexivity|].
  destruct (is_digit c) eqn:E; simpl; [reflexivity | rewrite E; reflexivity].
Qed.

(** C8. [sanitize] is idempotent: for every string [x],
    [sanitize (sanitize x) = sanitize x]. *)
Theorem sanitize_idempotent (x : jsstring) :
  sanitize (sanitize x) = sanitize x.
Proof.
  unfold sanitize at 1.
  rewrite (replace_nonword_fixed (sanitize x) (sanitize_words x)).
  unfold sanitize. apply prefix_digit_fixed.
Qed.

Lemma words_no_dot s : Forall (fun c => is_word c = true) s -> ~ In dot s.
Proof.
  intros H Hin. rewrite Forall_forall in H. specialize (H _ Hin).
  discriminate H.
Qed.

Lemma sanitize_no_dot s : ~ In dot (sanitize s).
Proof. apply words_no_dot, sanitize_words. Qed.

Lemma join_words sep parts :
  Forall (fun c => is_word c = true) sep ->
  Forall (fun p => Forall (fun c => is_word c = true) p) parts ->
  Forall (fun c => is_word c = true) (join sep parts).
Proof.
  intros Hsep; induction 1 as [|p rest Hp Hrest IH]; simpl; [constructor|].
  destruct rest as [|q rest']; [exact Hp|].
  apply Forall_app; split; [exact Hp|].
  apply Forall_app; split; [exact Hsep | exact IH].
Qed.

Lemma flatten_tail_no_dot parts : ~ In dot (flatten_tail parts).
Proof.
  apply words_no_dot. unfold flatten_tail. apply join_words.
  - constructor; [reflexivity | constructor].
  - apply Forall_forall. intros p Hp. apply in_map_iff in Hp.
    destruct Hp as [q [<- _]]. apply sanitize_words.
Qed.

(** ** Qualification *)

(** For a backend identifier without a dot the qualified name is the
    sanitised identifier, a dot, and the flattened tool name. *)
Lemma callableName_dotfree serverName toolName :
  ~ In dot serverName ->
  callableName serverName toolName
  = sanitize serverName ++ dot :: flat_name toolName.
Proof.
  intros H. unfold callableName, fullName. simpl.
  rewrite (split_app dot serverName toolName H).
  destruct (split dot toolName) as [|p ps] eqn:E.
  - exfalso. exact (split_nonempty _ _ E).
  - unfold flat_name, flatten_tail. rewrite E. reflexivity.
Qed.

Lemma flat_name_dotfree toolName :
  ~ In dot toolName -> flat_name toolName = sanitize toolName.
Proof.
  intros H. unfold flat_name.
  assert (E : split dot toolName = [toolName]).
  { induction toolName as [|c t IH]; simpl; [reflexivity|].
    destruct (N.eqb_spec c dot) as [->|_];
      [exfalso; apply H; left; reflexivity|].
    rewrite IH; [reflexivity|]. intros Hin. apply H. right. exact Hin. }
  rewrite E. reflexivity.
Qed.

Lemma callableName_inj b1 n1 b2 n2 :
  ~ In dot b1 -> ~ In dot b2 ->
  callableName b1 n1 = callableName b2 n2 ->
  sanitize b1 = sanitize b2 /\ flat_name n1 = flat_name n2.
Proof.
  intros H1 H2. rewrite !callableName_dotfree by assumption.
  apply app_sep_inj; apply sanitize_no_dot.
Qed.

(** C9, as amended.  For two (backend identifier, raw tool name) pairs
    whose backend identifiers contain no dot: when the sanitised backend
    identifiers differ, or the underscore-joined sanitised segments of the
    raw names differ, the qualified names are distinct. *)
Theorem qualify_injective (b1 n1 b2 n2 : jsstring) :
  ~ In dot b1 -> ~ In dot b2 ->
  sanitize b1 <> sanitize b2 \/ flat_name n1 <> flat_name n2 ->
  callableName b1 n1 <> callableName b2 n2.
Proof.
  intros H1 H2 Hd E.
  destruct (callableName_inj b1 n1 b2 n2 H1 H2 E) as [Eb En].
  destruct Hd as [Hd|Hd]; [exact (Hd Eb) | exact (Hd En)].
Qed.

Lemma qualify_injective_witness :
  callableName (lit "git") (lit "log") <> callableName (lit "fs") (lit "log").
Proof.
  apply qualify_injective.
  - vm_compute. intuition discriminate.
  - vm_compute. intuition discriminate.
  - left. vm_compute. discriminate.
Defined.

(** C9, as stated, fails: the pairs [("a.b", "c")] and [("a", "b.c")] are
    distinct, their sanitised backend identifiers differ, their sanitised
    raw names differ (whole, and segment by segment), and both are
    published as ["a.b_c"]. *)
Lemma qualify_collision :
  (lit "a.b", lit "c") <> (lit "a", lit "b.c")
  /\ sanitize (lit "a.b") <> sanitize (lit "a")
  /\ sanitize (lit "c") <> sanitize (lit "b.c")
  /\ flat_name (lit "c") <> flat_name (lit "b.c")
  /\ callableName (lit "a.b") (lit "c") = callableName (lit "a") (lit "b.c").
Proof.
  repeat split; vm_compute; try discriminate; reflexivity.
Qed.

(** Dots in the raw name alone collide as well: a segment that starts with
    a digit gets its own underscore. *)
Lemma qualify_collision_segments :
  sanitize (lit "x.1y") <> sanitize (lit "x__1y")
  /\ callableName (lit "a") (lit "x.1y") = callableName (lit "a") (lit "x__1y").
Proof.
  split; vm_compute; [discriminate | reflexivity].
Qed.

Lemma split_fullName_length serverName toolName :
  (1 < List.length (split dot (fullName serverName toolName)))%nat.
Proof.
  unfold fullName.
  induction serverName as [|c t IH]; simpl.
  - pose proof (split_nonempty dot toolName).
    destruct (split dot toolName); [congruence | simpl; lia].
  - simpl in IH. destruct (c =? dot); [simpl; lia|].
    destruct (split dot (t ++ dot :: toolName)); simpl in *; lia.
Qed.

(** The first step of [prepare_step] on a qualified name: one namespace
    with one member, under the two halves of the name. *)
Lemma prepare_step_first serverName toolName fn :
  prepare_step [] (fullName serverName toolName, fn)
  = [(sanitize (hd [] (split dot (fullName serverName toolName))),
      {| callable := None;
         members := [(flatten_tail (split dot (fullName serverName toolName)),
                      fn)] |})].
Proof.
  unfold prepare_step. simpl fst. simpl snd.
  pose proof (split_fullName_length serverName toolName) as L.
  apply Nat.ltb_lt in L. rewrite L. reflexivity.
Qed.

(** ** Placeholder expansion *)

Lemma expandEnv_clause env c t m (e : match_placeholder (c :: t) = m) :
  expandEnv_unfold_clause_2 env c t (exist _ m e)
  = match m with
    | Some (v, rest) => replacer env (placeholder v) v ++ expandEnv env rest
    | None => c :: expandEnv env t
    end.
Proof.
  destruct m as [[v rest]|]; reflexivity.
Qed.

(** The scan, one step at a time. *)
Lemma expandEnv_cons env c t :
  expandEnv env (c :: t)
  = match match_placeholder (c :: t) with
    | Some (v, rest) => replacer env (placeholder v) v ++ expandEnv env rest
    | None => c :: expandEnv env t
    end.
Proof.
  rewrite expandEnv_equation_2. unfold inspect. apply expandEnv_clause.
Qed.

Lemma span_until_app stop v post :
  ~ In stop v -> span_until stop (v ++ stop :: post) = (v, stop :: post).
Proof.
  induction v as [|c v IH]; simpl; intros H.
  - rewrite N.eqb_refl. reflexivity.
  - destruct (N.eqb_spec c stop) as [->|_]; [tauto|].
    rewrite IH by tauto. reflexivity.
Qed.

Lemma match_placeholder_here v post :
  v <> [] -> ~ In rbrace v ->
  match_placeholder (placeholder v ++ post) = Some (v, post).
Proof.
  intros Hv Hb. unfold placeholder. simpl.
  rewrite <- app_assoc. simpl.
  rewrite (span_until_app rbrace v post Hb).
  destruct v; [congruence | reflexivity].
Qed.

Lemma match_placeholder_other c t :
  c <> dollar -> match_placeholder (c :: t) = None.
Proof.
  intros H. unfold match_placeholder.
  destruct t as [|c2 t]; [reflexivity|].
  destruct (N.eqb_spec c dollar) as [E|_]; [contradiction | reflexivity].
Qed.

Lemma expandEnv_literal env pre s :
  ~ In dollar pre -> expandEnv env (pre ++ s) = pre ++ expandEnv env s.
Proof.
  induction pre as [|c pre IH]; simpl; intros H; [reflexivity|].
  rewrite expandEnv_cons, match_placeholder_other by tauto.
  rewrite IH by tauto. reflexivity.
Qed.

Lemma expandEnv_placeholder env v pre post :
  v <> [] -> ~ In rbrace v -> ~ In dollar pre ->
  expandEnv env (pre ++ placeholder v ++ post)
  = pre ++ replacer env (placeholder v) v ++ expandEnv env post.
Proof.
  intros Hv Hb Hp. rewrite expandEnv_literal by assumption. f_equal.
  pose proof (match_placeholder_here v post Hv Hb) as E.
  unfold placeholder in *. simpl in *.
  rewrite expandEnv_cons. simpl. simpl in E. rewrite E. reflexivity.
Qed.

Lemma span_until_split stop s a b :
  span_until stop s = (a, b) -> s = a ++ b /\ (b = [] \/ hd 0 b = stop).
Proof.
  revert a b; induction s as [|c t IH]; simpl; intros a b H.
  - inversion H; auto.
  - destruct (N.eqb_spec c stop) as [->|_].
    + inversion H; subst. auto.
    + destruct (span_until stop t) as [a' b'].
      inversion H; subst. destruct (IH a' b eq_refl) as [-> Hb]. auto.
Qed.

(** A match is the text of a placeholder. *)
Lemma match_placeholder_sound s v rest :
  match_placeholder s = Some (v, rest) -> s = placeholder v ++ rest.
Proof.
  unfold match_placeholder, placeholder.
  destruct s as [|c1 [|c2 t]]; try discriminate.
  destruct (N.eqb_spec c1 dollar) as [->|_]; [|discriminate].
  destruct (N.eqb_spec c2 lbrace) as [->|_]; [|discriminate].
  cbn [andb].
  destruct (span_until rbrace t) as [a b] eqn:E.
  apply span_until_split in E. destruct E as [-> Hb].
  destruct a as [|x a]; [discriminate|].
  destruct b as [|y b]; [discriminate|].
  intros H; inversion H; subst.
  destruct Hb as [Hb|Hb]; [discriminate|]. simpl in Hb. subst y.
  simpl. rewrite <- app_assoc. reflexivity.
Qed.

Lemma unclosed_tail c t : unclosed (c :: t) = false -> unclosed t = false.
Proof.
  cbn [unclosed]. intros H. apply orb_false_iff in H. exact (proj2 H).
Qed.

Lemma unclosed_suffix a b : unclosed (a ++ b) = false -> unclosed b = false.
Proof.
  induction a as [|c a IH]; intros H; [exact H|].
  apply IH. exact (unclosed_tail c (a ++ b) H).
Qed.

(** A closing brace inside [t] stops the run before what follows [t]. *)
Lemma span_until_within stop t rest :
  existsb (N.eqb stop) t = true ->
  exists a b, span_until stop t = (a, stop :: b)
              /\ span_until stop (t ++ rest) = (a, stop :: b ++ rest).
Proof.
  induction t as [|c t IH]; simpl; intros H; [discriminate|].
  destruct (N.eqb_spec c stop) as [->|Hc].
  - exists [], t. split; reflexivity.
  - destruct (N.eqb_spec stop c) as [E|_]; [symmetry in E; contradiction|].
    destruct (IH H) as [a [b [E1 E2]]]. rewrite E1, E2.
    exists (c :: a), b. split; reflexivity.
Qed.

(** An attempt of the pattern inside text without an open [${] does not see
    what follows the text. *)
Lemma match_placeholder_app c t rest :
  unclosed (c :: t) = false -> hd dollar rest <> lbrace ->
  match_placeholder ((c :: t) ++ rest)
  = match match_placeholder (c :: t) with
    | Some (v, behind) => Some (v, behind ++ rest)
    | None => None
    end.
Proof.
  intros Hu Hr. destruct t as [|c2 name].
  - cbn [app match_placeholder]. destruct rest as [|x r]; [reflexivity|].
    cbn [hd] in Hr. destruct (N.eqb_spec x lbrace) as [E|_]; [contradiction|].
    rewrite andb_false_r. reflexivity.
  - cbn [unclosed] in Hu. apply orb_false_iff in Hu. destruct Hu as [Hu _].
    cbn [app match_placeholder].
    destruct ((c =? dollar) && (c2 =? lbrace)); [|reflexivity].
    cbn [andb] in Hu. apply negb_false_iff in Hu.
    destruct (span_until_within rbrace name rest Hu) as [a [b [E1 E2]]].
    rewrite E1, E2. destruct a; reflexivity.
Qed.

(** Text without an open [${] is expanded on its own. *)
Lemma expandEnv_app env pre rest :
  unclosed pre = false -> hd dollar rest <> lbrace ->
  expandEnv env (pre ++ rest) = expandEnv env pre ++ expandEnv env rest.
Proof.
  intros Hu Hr.
  remember (List.length pre) as n eqn:Hn. revert pre Hu Hn.
  induction n as [n IH] using lt_wf_ind. intros pre Hu Hn.
  destruct pre as [|c t]; [simp expandEnv; reflexivity|].
  pose proof (match_placeholder_app c t rest Hu Hr) as M.
  rewrite (expandEnv_cons env c t).
  change ((c :: t) ++ rest) with (c :: (t ++ rest)) in *.
  rewrite (expandEnv_cons env c (t ++ rest)), M.
  destruct (match_placeholder (c :: t)) as [[v behind]|] eqn:E.
  - pose proof (match_placeholder_sound _ _ _ E) as Hs.
    assert (Hshort : (List.length behind < n)%nat).
    { subst n. rewrite Hs. rewrite length_app. unfold placeholder. simpl.
      lia. }
    assert (Hclosed : unclosed behind = false).
    { apply (unclosed_suffix (placeholder v)). rewrite <- Hs. exact Hu. }
    rewrite (IH (List.length behind) Hshort behind Hclosed eq_refl).
    rewrite app_assoc. reflexivity.
  - rewrite (IH (List.length t) ltac:(subst n; simpl; lia) t
                (unclosed_tail c t Hu) eq_refl).
    reflexivity.
Qed.

Lemma replacer_cases env whole v :
  (env v = Some [] -> replacer env whole v = whole)
  /\ (forall value, value <> [] -> env v = Some value ->
      replacer env whole v = value)
  /\ (env v = None -> includes Object_prototype_names v = false ->
      replacer env whole v = whole)
  /\ (env v = None -> includes Object_prototype_names v = true ->
      replacer env whole v = text_of (Inherited v)).
Proof.
  unfold replacer, process_env_get. repeat split.
  - intros ->. reflexivity.
  - intros value Hval ->. destruct value; [congruence | reflexivity].
  - intros -> ->. reflexivity.
  - intros -> ->. reflexivity.
Qed.

(** C10.  A placeholder [${v}] whose variable is set to the empty string
    stays in the text as it is, and a variable set to a non-empty string
    has its value substituted.  A variable that is not set leaves the
    placeholder as it is too, unless [v] names a member [process.env]
    inherits, whose text is then substituted: substitution takes place
    exactly when [process.env[v]] is truthy.  The placeholder may stand
    anywhere: [pre], the text in front of it, is any text that does not
    end inside a [${] of its own, and [post] is any text. *)
Theorem expandEnv_empty_value (env : jsstring -> option jsstring)
  (v pre post : jsstring) :
  v <> [] -> ~ In rbrace v -> unclosed pre = false ->
  (env v = Some [] ->
   expandEnv env (pre ++ placeholder v ++ post)
   = expandEnv env pre ++ placeholder v ++ expandEnv env post)
  /\ (forall value, value <> [] -> env v = Some value ->
      expandEnv env (pre ++ placeholder v ++ post)
      = expandEnv env pre ++ value ++ expandEnv env post)
  /\ (env v = None -> includes Object_prototype_names v = false ->
      expandEnv env (pre ++ placeholder v ++ post)
      = expandEnv env pre ++ placeholder v ++ expandEnv env post)
  /\ (env v = None -> includes Object_prototype_names v = true ->
      expandEnv env (pre ++ placeholder v ++ post)
      = expandEnv env pre ++ text_of (Inherited v) ++ expandEnv env post).
Proof.
  intros Hv Hb Hp.
  assert (E : expandEnv env (pre ++ placeholder v ++ post)
              = expandEnv env pre
                ++ replacer env (placeholder v) v ++ expandEnv env post).
  { rewrite expandEnv_app; [|exact Hp|discriminate]. f_equal.
    apply (expandEnv_placeholder env v [] post Hv Hb). intros []. }
  rewrite E.
  destruct (replacer_cases env (placeholder v) v) as [R1 [R2 [R3 R4]]].
  repeat split.
  - intros H. rewrite (R1 H). reflexivity.
  - intros value Hval H. rewrite (R2 value Hval H). reflexivity.
  - intros H1 H2. rewrite (R3 H1 H2). reflexivity.
  - intros H1 H2. rewrite (R4 H1 H2). reflexivity.
Qed.

Lemma expandEnv_empty_value_witness :
  expandEnv (fun v => if eqb v (lit "TOKEN") then Some [] else None)
            (lit "cost $5 " ++ placeholder (lit "TOKEN") ++ lit "!")
  = lit "cost $5 ${TOKEN}!".
Proof.
  refine (eq_trans
            (proj1 (expandEnv_empty_value _ (lit "TOKEN") (lit "cost $5 ")
                      (lit "!") _ _ _) eq_refl) _).
  - discriminate.
  - vm_compute. intuition discriminate.
  - reflexivity.
  - reflexivity.
Defined.

(** ** Allow and deny lists *)

(** C5.  With an [allow] list the filtered tools are exactly the tools
    whose names are in it, whatever [deny] holds; without [allow] and with
    a [deny] list they are exactly the tools whose names are not in
    [deny]; without both every tool passes. *)
Theorem filteredTools_rule (cfg : Server) (serverTools : list ServerTool) :
  (forall allowed denied,
      codemode cfg = Some {| allow := Some allowed; deny := denied |} ->
      forall t, In t (filteredTools cfg serverTools)
                <-> In t serverTools /\ In (name t) allowed)
  /\ (forall denied,
         codemode cfg = Some {| allow := None; deny := Some denied |} ->
         forall t, In t (filteredTools cfg serverTools)
                   <-> In t serverTools /\ ~ In (name t) denied)
  /\ (codemode cfg = None
      \/ codemode cfg = Some {| allow := None; deny := None |} ->
      filteredTools cfg serverTools = serverTools).
Proof.
  unfold filteredTools, allow_of, deny_of.
  split; [|split].
  - intros allowed denied E t. rewrite E. cbn [allow].
    rewrite filter_In, includes_In. reflexivity.
  - intros denied E t. rewrite E. cbn [allow deny].
    rewrite filter_In, negb_true_iff. split.
    + intros [Ht Hn]. split; [exact Ht|]. intros Hin.
      apply includes_In in Hin. congruence.
    + intros [Ht Hn]. split; [exact Ht|].
      destruct (includes denied (name t)) eqn:I; [|reflexivity].
      apply includes_In in I. contradiction.
  - intros [E|E]; rewrite E; cbn [allow deny];
      (induction serverTools as [|t ts IH]; simpl;
       [reflexivity | f_equal; exact IH]).
Qed.

(** ** Signature synthesiser *)

Lemma rmap_ok {A B} (f : A -> result B) (l : list A) :
  (forall x, In x l -> exists y, f x = Ok y) ->
  exists ys, rmap f l = Ok ys.
Proof.
  induction l as [|x t IH]; simpl; intros H; [eexists; reflexivity|].
  destruct (H x (or_introl eq_refl)) as [y ->]. simpl.
  destruct IH as [ys ->]; [intros z Hz; apply H; right; exact Hz|].
  simpl. eexists; reflexivity.
Qed.

Lemma rmap_ok_iff {A B} (f : A -> result B) (l : list A) :
  (exists ys, rmap f l = Ok ys) <-> (forall x, In x l -> exists y, f x = Ok y).
Proof.
  split; [|apply rmap_ok].
  induction l as [|x t IH]; [intros _ y []|].
  intros [ys E] y [<-|Hy]; cbn [rmap] in E.
  - destruct (f x); [eexists; reflexivity | discriminate].
  - apply IH; [|exact Hy]. destruct (f x); [|discriminate].
    cbn [rbind] in E. destruct (rmap f t); [eexists; reflexivity|discriminate].
Qed.

Lemma rmap_ext {A B} (f g : A -> result B) (l : list A) :
  (forall x, In x l -> f x = g x) -> rmap f l = rmap g l.
Proof.
  induction l as [|x t IH]; simpl; intros H; [reflexivity|].
  rewrite (H x (or_introl eq_refl)).
  rewrite IH; [reflexivity|]. intros z Hz. apply H. right. exact Hz.
Qed.

Lemma assoc_In {A} k (l : list (jsstring * A)) v :
  assoc k l = Some v -> exists k', In (k', v) l.
Proof.
  induction l as [|[k' v'] t IH]; simpl; [discriminate|].
  destruct (eqb k k').
  - intros H; inversion H; subst. exists k'. left. reflexivity.
  - intros H. destruct (IH H) as [k'' Hin]. exists k''. right. exact Hin.
Qed.

Lemma member_cases s k :
  member s k = JUndefined
  \/ exists props k', s = JObj props /\ In (k', member s k) props.
Proof.
  destruct s; simpl; auto.
  destruct (assoc k props) as [x|] eqn:E; [|auto].
  right. destruct (assoc_In _ _ _ E) as [k' Hin]. eauto.
Qed.

Lemma schema_ok_member s k :
  schema_ok s = true -> schema_ok (member s k) = true.
Proof.
  intros H. destruct (member_cases s k) as [->|[props [k' [-> Hin]]]];
    [reflexivity|].
  simpl in H. rewrite !andb_true_iff in H. destruct H as [_ H].
  rewrite forallb_forall in H. exact (H _ Hin).
Qed.

Lemma schema_ok_node s :
  schema_ok s = true ->
  enum_ok (member s (lit "enum")) = true
  /\ required_ok (member s (lit "required")) = true
  /\ type_ok (member s (lit "type")) = true.
Proof.
  destruct s; try (intros _; repeat split; reflexivity).
  intros H. cbn [schema_ok] in H. rewrite !andb_true_iff in H. tauto.
Qed.

Lemma indexed_In {A} (l : list A) i kv :
  In kv (indexed i l) -> In (snd kv) l.
Proof.
  revert i; induction l as [|x t IH]; simpl; intros i H; [exact H|].
  destruct H as [<-|H]; [left; reflexivity | right; exact (IH _ H)].
Qed.

Lemma schema_ok_entries p kvs kv :
  schema_ok p = true -> entries p = Ok kvs -> In kv kvs ->
  schema_ok (snd kv) = true.
Proof.
  intros Hp He Hin. destruct p; simpl in He; inversion He; subst;
    try contradiction.
  - apply indexed_In in Hin. apply in_map_iff in Hin.
    destruct Hin as [c [<- _]]. reflexivity.
  - apply indexed_In in Hin. simpl in Hp.
    rewrite forallb_forall in Hp. exact (Hp _ Hin).
  - simpl in Hp. rewrite !andb_true_iff in Hp. destruct Hp as [_ Hp].
    rewrite forallb_forall in Hp. exact (Hp _ Hin).
Qed.

Lemma enum_text_scalar v : scalar v = true -> exists t, enum_text v = Ok t.
Proof.
  destruct v as [| |[|]| | | |]; simpl; try discriminate; intros _;
    eexists; reflexivity.
Qed.

(** The decimal text of an integer is in neither column of the table. *)
Lemma scalar_table_number z : scalar_table (of_Z z) = Text (lit "any").
Proof.
  unfold of_Z, DecimalString.NilZero.string_of_int.
  destruct (Z.to_int z) as [u|u]; [|reflexivity].
  unfold DecimalString.NilZero.string_of_uint.
  destruct u; reflexivity.
Qed.

Lemma scalar_table_type_ok t :
  type_ok t = true ->
  exists key text, toString t = Ok key /\ scalar_table key = Text text.
Proof.
  destruct t as [| |[|]|z|x| |]; cbn [type_ok toString];
    try discriminate; intros H.
  1-4: do 2 eexists; split; reflexivity.
  - do 2 eexists; split; [reflexivity | apply scalar_table_number].
  - exists x. apply negb_true_iff in H. unfold scalar_table. rewrite H.
    repeat match goal with
           | |- context [if ?b then _ else _] => destruct b
           end; eexists; split; reflexivity.
Qed.

Lemma height_In_props (props : list (jsstring * JSVal)) kv :
  In kv props ->
  (height (snd kv)
   <= fold_right (fun kv n => Nat.max (height (snd kv)) n) 0 props)%nat.
Proof.
  induction props as [|x t IH]; simpl; [tauto|].
  intros [->|H]; [lia | specialize (IH H); lia].
Qed.

Lemma height_In_items (items : list JSVal) v :
  In v items ->
  (height v <= fold_right (fun x n => Nat.max (height x) n) 0 items)%nat.
Proof.
  induction items as [|x t IH]; simpl; [tauto|].
  intros [->|H]; [lia | specialize (IH H); lia].
Qed.

Lemma member_height s k :
  truthy (member s k) = true -> (height (member s k) < height s)%nat.
Proof.
  intros H. destruct (member_cases s k) as [E|[props [k' [-> Hin]]]].
  - rewrite E in H. discriminate.
  - pose proof (height_In_props props _ Hin) as L. cbn [snd] in L.
    remember (member (JObj props) k) as x.
    cbn [height]. lia.
Qed.

Lemma entries_height p kvs kv :
  entries p = Ok kvs -> In kv kvs -> (height (snd kv) <= height p)%nat.
Proof.
  intros He Hin. destruct p; simpl in He; inversion He; subst;
    try contradiction.
  - apply indexed_In in Hin. apply in_map_iff in Hin.
    destruct Hin as [c [<- _]]. simpl. lia.
  - apply indexed_In in Hin. pose proof (height_In_items _ _ Hin).
    cbn [height]. lia.
  - pose proof (height_In_props _ _ Hin). cbn [height]. lia.
Qed.

Lemma toType_rec_ok n : forall s d,
  (height s < n)%nat ->
  schema_ok s = true -> exists t, toType_rec n s d = Ok (Text t).
Proof.
  induction n as [|n IH]; intros s d Hn Hs; [lia|].
  cbn [toType_rec]. unfold toType_body.
  destruct (schema_ok_node s Hs) as [He [Hr Ht]].
  destruct (negb (truthy s)); [eexists; reflexivity|].
  destruct (truthy (member s (lit "enum"))) eqn:Te.
  { unfold enum_ok in He.
    destruct (member s (lit "enum")) eqn:Ee;
      try (rewrite Te in He; discriminate).
    rewrite forallb_forall in He.
    destruct (rmap_ok enum_text items) as [ys ->].
    - intros x Hx. apply enum_text_scalar. exact (He x Hx).
    - eexists; reflexivity. }
  destruct (is_str (member s (lit "type")) (lit "array")).
  { destruct (truthy (member s (lit "items"))) eqn:Ti;
      [|eexists; reflexivity].
    pose proof (member_height s _ Ti) as Hi.
    destruct (IH (member s (lit "items")) (d + 1)%nat)
      as [t ->]; [lia | apply schema_ok_member; exact Hs |].
    eexists; reflexivity. }
  destruct (is_str (member s (lit "type")) (lit "object")).
  { destruct (truthy (member s (lit "properties"))) eqn:Tp;
      [|eexists; reflexivity].
    destruct (2 <? d)%nat; [eexists; reflexivity|]. cbn [negb orb].
    destruct (entries (member s (lit "properties"))) as [kvs|e] eqn:Ek.
    2:{ destruct (member s (lit "properties")); simpl in *; discriminate. }
    cbn [rbind].
    match goal with
    | |- context [rmap ?f kvs] =>
        destruct (rmap_ok f kvs) as [fields ->]
    end.
    - intros kv Hkv.
      assert (Hreq : exists b, required_includes (member s (lit "required"))
                                                 (fst kv) = Ok b).
      { destruct (member s (lit "required")); simpl in *;
          try discriminate; eexists; reflexivity. }
      destruct Hreq as [b ->]. cbn [rbind].
      pose proof (entries_height _ _ _ Ek Hkv) as Hk.
      pose proof (member_height s _ Tp) as Hp.
      destruct (IH (snd kv) (d + 1)%nat) as [t ->];
        [lia | | eexists; reflexivity].
      eapply schema_ok_entries; [|exact Ek|exact Hkv].
      apply schema_ok_member. exact Hs.
    - eexists; reflexivity. }
  destruct (scalar_table_type_ok _ Ht) as [key [text [-> Hk]]].
  cbn [rbind]. rewrite Hk. eexists; reflexivity.
Qed.

(** The body looks at [self] only below the value it is given. *)
Lemma toType_body_ext f g s d :
  (forall v d', (height v < height s)%nat -> f v d' = g v d') ->
  toType_body f s d = toType_body g s d.
Proof.
  intros H. unfold toType_body.
  destruct (negb (truthy s)); [reflexivity|].
  destruct (truthy (member s (lit "enum"))); [reflexivity|].
  destruct (is_str (member s (lit "type")) (lit "array")).
  { destruct (truthy (member s (lit "items"))) eqn:Ti; [|reflexivity].
    rewrite (H _ _ (member_height s _ Ti)). reflexivity. }
  destruct (is_str (member s (lit "type")) (lit "object")); [|reflexivity].
  destruct (truthy (member s (lit "properties"))) eqn:Tp; [|reflexivity].
  destruct (2 <? d)%nat; [reflexivity|]. cbn [negb orb].
  destruct (entries (member s (lit "properties"))) as [kvs|e] eqn:Ek;
    [|reflexivity].
  cbn [rbind]. f_equal. apply rmap_ext. intros kv Hkv.
  rewrite H; [reflexivity|].
  pose proof (entries_height _ _ _ Ek Hkv).
  pose proof (member_height s _ Tp). lia.
Qed.

Lemma toType_rec_stable n : forall m s d,
  (height s < n)%nat -> (height s < m)%nat ->
  toType_rec n s d = toType_rec m s d.
Proof.
  induction n as [|n IH]; intros m s d Hn Hm; [lia|].
  destruct m as [|m]; [lia|]. cbn [toType_rec].
  apply toType_body_ext. intros v d' Hv. apply IH; lia.
Qed.

(** [toType] satisfies the recursive equation of the source. *)
Lemma toType_unfold s d : toType s d = toType_body toType s d.
Proof.
  unfold toType at 1. cbn [toType_rec].
  apply toType_body_ext. intros v d' Hv. unfold toType.
  apply toType_rec_stable; lia.
Qed.

Lemma JSVal_nested_ind (P : JSVal -> Prop) :
  P JUndefined -> P JNull -> (forall b, P (JBool b)) ->
  (forall z, P (JNum z)) -> (forall s, P (JStr s)) ->
  (forall items, Forall P items -> P (JArr items)) ->
  (forall props, Forall (fun kv => P (snd kv)) props -> P (JObj props)) ->
  forall v, P v.
Proof.
  intros HU HN HB HZ HS HA HO.
  fix IH 1. intros [| |b|z|s|items|props];
    [exact HU | exact HN | apply HB | apply HZ | apply HS | | ].
  - apply HA. induction items as [|x t IHt]; constructor;
      [apply IH | exact IHt].
  - apply HO. induction props as [|[k x] t IHt]; constructor;
      [apply IH | exact IHt].
Qed.

Lemma rmap_cases {A B} (f : A -> result B) (l : list A) :
  (forall x, In x l -> returns_or_TypeError (f x)) ->
  returns_or_TypeError (rmap f l).
Proof.
  induction l as [|x t IH]; simpl; intros H; [left; eexists; reflexivity|].
  destruct (H x (or_introl eq_refl)) as [[y ->]| ->]; [|right; reflexivity].
  simpl. destruct IH as [[ys ->]| ->];
    [intros z Hz; apply H; right; exact Hz | left; eexists; reflexivity
    | right; reflexivity].
Qed.

Lemma toString_cases v : returns_or_TypeError (toString v).
Proof.
  induction v as [| |b|z|s|items IH|props _] using JSVal_nested_ind;
    try (left; eexists; reflexivity).
  - destruct b; left; eexists; reflexivity.
  - cbn [toString].
    match goal with
    | |- returns_or_TypeError (rbind ?e _) =>
        assert (H : returns_or_TypeError e)
    end.
    { induction IH as [|x t Hx _ IHt]; [left; eexists; reflexivity|].
      assert (Hx' : returns_or_TypeError
                      (match x with
                       | JUndefined | JNull => Ok []
                       | _ => toString x
                       end)).
      { destruct x; try exact Hx; left; eexists; reflexivity. }
      destruct Hx' as [[y ->]| ->]; [|right; reflexivity].
      cbn [rbind]. destruct IHt as [[ys ->]| ->];
        [left; eexists; reflexivity | right; reflexivity]. }
    destruct H as [[texts ->]| ->];
      [left; eexists; reflexivity | right; reflexivity].
  - cbn [toString]. destruct (assoc (lit "toString") props);
      [right; reflexivity | left; eexists; reflexivity].
Qed.

Lemma toType_rec_cases n : forall s d,
  (height s < n)%nat -> returns_or_TypeError (toType_rec n s d).
Proof.
  induction n as [|n IH]; intros s d Hn; [lia|].
  cbn [toType_rec]. unfold toType_body.
  destruct (negb (truthy s)); [left; eexists; reflexivity|].
  destruct (truthy (member s (lit "enum"))) eqn:Te.
  { destruct (member s (lit "enum")); try (right; reflexivity).
    destruct (rmap_cases enum_text items) as [[ys ->]| ->];
      [ | left; eexists; reflexivity | right; reflexivity].
    intros x _. destruct x; try apply toString_cases;
      left; eexists; reflexivity. }
  destruct (is_str (member s (lit "type")) (lit "array")).
  { destruct (truthy (member s (lit "items"))) eqn:Ti;
      [|left; eexists; reflexivity].
    pose proof (member_height s _ Ti) as Hi.
    destruct (IH (member s (lit "items")) (d + 1)%nat) as [[r ->]| ->];
      [lia | left; eexists; reflexivity | right; reflexivity]. }
  destruct (is_str (member s (lit "type")) (lit "object")).
  { destruct (truthy (member s (lit "properties"))) eqn:Tp;
      [|left; eexists; reflexivity].
    destruct (2 <? d)%nat; [left; eexists; reflexivity|]. cbn [negb orb].
    destruct (entries (member s (lit "properties"))) as [kvs|e] eqn:Ek.
    2:{ destruct (member s (lit "properties")); simpl in *; discriminate. }
    cbn [rbind].
    match goal with
    | |- context [rmap ?f kvs] =>
        destruct (rmap_cases f kvs) as [[fields ->]| ->]
    end; [ | left; eexists; reflexivity | right; reflexivity].
    intros kv Hkv.
    destruct (required_includes (member s (lit "required")) (fst kv))
      as [b|e] eqn:Er.
    2:{ right. destruct (member s (lit "required")); simpl in Er;
          inversion Er; reflexivity. }
    cbn [rbind].
    pose proof (entries_height _ _ _ Ek Hkv) as Hk.
    pose proof (member_height s _ Tp) as Hp.
    destruct (IH (snd kv) (d + 1)%nat) as [[r ->]| ->];
      [lia | left; eexists; reflexivity | right; reflexivity]. }
  destruct (toString_cases (member s (lit "type"))) as [[key ->]| ->];
    [left; eexists; reflexivity | right; reflexivity].
Qed.

(** X24.  On every value and at every depth [toType] comes to an end: it
    returns, or it raises, and what it raises is a [TypeError]. *)
Lemma toType_total s d : returns_or_TypeError (toType s d).
Proof. unfold toType. apply toType_rec_cases. lia. Qed.

(** A truthy [enum] that is not an array makes [toType] raise. *)
Lemma toType_enum_not_array s d :
  truthy s = true ->
  truthy (member s (lit "enum")) = true ->
  (forall values, member s (lit "enum") <> JArr values) ->
  toType s d = Throw TypeError.
Proof.
  intros Hs He Hn. rewrite toType_unfold. unfold toType_body.
  rewrite Hs, He. cbn [negb].
  destruct (member s (lit "enum")); try reflexivity.
  exfalso. exact (Hn _ eq_refl).
Qed.

Lemma toString_printable v :
  (printable v = true -> exists t, toString v = Ok t)
  /\ (printable v = false -> toString v = Throw TypeError).
Proof.
  induction v as [| |b|z|s|items IH|props _] using JSVal_nested_ind;
    try (split; [intros _; eexists; reflexivity | discriminate]).
  - split; [intros _; destruct b; eexists; reflexivity | discriminate].
  - cbn [toString printable].
    match goal with
    | |- context [rbind ?e _] => set (elements := e)
    end.
    assert (H : (forallb printable items = true ->
                 exists ys, elements = Ok ys)
                /\ (forallb printable items = false ->
                    elements = Throw TypeError)).
    { subst elements.
      induction IH as [|x t Hx _ IHt];
        [split; [intros _; eexists; reflexivity | discriminate]|].
      cbn [forallb].
      assert (Hx' : (printable x = true ->
                     exists y, match x with
                               | JUndefined | JNull => Ok []
                               | _ => toString x
                               end = Ok y)
                    /\ (printable x = false ->
                        match x with
                        | JUndefined | JNull => Ok []
                        | _ => toString x
                        end = Throw TypeError)).
      { destruct x; try exact Hx;
          (split; [intros _; eexists; reflexivity | discriminate]). }
      destruct (printable x).
      - destruct (proj1 Hx' eq_refl) as [y ->]. cbn [rbind andb].
        destruct IHt as [I1 I2]. split; intros H.
        + destruct (I1 H) as [ys ->]. eexists; reflexivity.
        + rewrite (I2 H). reflexivity.
      - rewrite (proj2 Hx' eq_refl). cbn [rbind andb].
        split; [discriminate | reflexivity]. }
    destruct H as [H1 H2]. split; intros H.
    + destruct (H1 H) as [ys ->]. eexists; reflexivity.
    + rewrite (H2 H). reflexivity.
  - cbn [toString printable]. destruct (assoc (lit "toString") props);
      split; try discriminate; intros _; [reflexivity | eexists; reflexivity].
Qed.

Lemma enum_text_printable v :
  (printable v = true -> exists t, enum_text v = Ok t)
  /\ (printable v = false -> enum_text v = Throw TypeError).
Proof.
  destruct v; try apply toString_printable;
    (split; [intros _; eexists; reflexivity | discriminate]).
Qed.

Lemma scalar_table_cases key :
  (includes Object_prototype_names key = true ->
   scalar_table key = Inherited key)
  /\ (includes Object_prototype_names key = false ->
      exists t, scalar_table key = Text t).
Proof.
  split; intros H.
  - apply includes_In in H. unfold Object_prototype_names in H.
    cbn [map In] in H.
    repeat (destruct H as [<-|H]; [reflexivity|]). contradiction.
  - unfold scalar_table. rewrite H.
    repeat match goal with
           | |- context [if ?b then _ else _] => destruct b
           end; eexists; reflexivity.
Qed.

Lemma required_includes_ok r k :
  (required_ok r = true -> exists b, required_includes r k = Ok b)
  /\ (required_ok r = false -> required_includes r k = Throw TypeError).
Proof.
  destruct r; cbn [required_ok required_includes];
    split; try discriminate; intros _; try reflexivity; eexists; reflexivity.
Qed.

Lemma forallb_false {A} (p : A -> bool) l :
  forallb p l = false -> exists x, In x l /\ p x = false.
Proof.
  induction l as [|x t IH]; cbn [forallb]; [discriminate|].
  destruct (p x) eqn:E.
  - intros H. destruct (IH H) as [y [Hy Py]]. exists y. split;
      [right; exact Hy | exact Py].
  - intros _. exists x. split; [left; reflexivity | exact E].
Qed.

(** The check and the synthesiser agree, round for round. *)
Lemma well_formed_rec_spec n : forall root s d,
  (height s < n)%nat ->
  (well_formed_rec n root s d = true ->
   exists r, toType_rec n s d = Ok r
             /\ (root = true -> exists t, r = Text t))
  /\ (well_formed_rec n root s d = false ->
      forall r, toType_rec n s d = Ok r ->
                root = true /\ exists name, r = Inherited name).
Proof.
  induction n as [|n IH]; intros root s d Hn; [lia|].
  cbn [well_formed_rec toType_rec]. unfold well_formed_body, toType_body.
  destruct (negb (truthy s)).
  { split; [intros _; eexists; split; [reflexivity | eauto] | discriminate]. }
  destruct (truthy (member s (lit "enum"))) eqn:Te.
  { destruct (member s (lit "enum")) as [| | | | |values|];
      try (split; [discriminate | intros _ r E; discriminate E]).
    split; intros H.
    - rewrite forallb_forall in H.
      destruct (rmap_ok enum_text values) as [ys ->].
      + intros x Hx. apply enum_text_printable. exact (H x Hx).
      + eexists; split; [reflexivity | eauto].
    - intros r E. exfalso.
      destruct (forallb_false _ _ H) as [x [Hx Px]].
      destruct (rmap enum_text values) as [ys|] eqn:Er; [|discriminate].
      destruct (proj1 (rmap_ok_iff enum_text values)
                  (ex_intro _ ys Er) x Hx) as [y Ey].
      rewrite (proj2 (enum_text_printable x) Px) in Ey. discriminate. }
  destruct (is_str (member s (lit "type")) (lit "array")).
  { destruct (truthy (member s (lit "items"))) eqn:Ti.
    2:{ split; [intros _; eexists; split; [reflexivity | eauto]
               | discriminate]. }
    pose proof (member_height s _ Ti) as Hi.
    destruct (IH false (member s (lit "items")) (d + 1)%nat
                ltac:(lia)) as [I1 I2].
    split; intros H.
    - destruct (I1 H) as [r [-> _]]. eexists; split; [reflexivity | eauto].
    - intros r E. exfalso.
      destruct (toType_rec n (member s (lit "items")) (d + 1)) as [r'|] eqn:Er;
        [|discriminate].
      destruct (I2 H r' eq_refl) as [F _]. discriminate. }
  destruct (is_str (member s (lit "type")) (lit "object")).
  { destruct (truthy (member s (lit "properties"))) eqn:Tp.
    2:{ split; [intros _; eexists; split; [reflexivity | eauto]
               | discriminate]. }
    destruct (2 <? d)%nat.
    { split; [intros _; eexists; split; [reflexivity | eauto]
             | discriminate]. }
    cbn [negb orb].
    destruct (entries (member s (lit "properties"))) as [kvs|e] eqn:Ek.
    2:{ destruct (member s (lit "properties")); simpl in *; discriminate. }
    cbn [rbind].
    assert (Hbelow : forall kv, In kv kvs -> (height (snd kv) < n)%nat).
    { intros kv Hkv. pose proof (entries_height _ _ _ Ek Hkv).
      pose proof (member_height s _ Tp). lia. }
    destruct kvs as [|kv0 kvs'].
    { split; [intros _; eexists; split; [reflexivity | eauto]
             | discriminate]. }
    set (kvs := kv0 :: kvs') in *.
    split; intros H.
    - apply andb_true_iff in H. destruct H as [Hr Hk].
      rewrite forallb_forall in Hk.
      match goal with
      | |- context [rmap ?f kvs] => destruct (rmap_ok f kvs) as [fields ->]
      end.
      + intros kv Hkv.
        destruct (proj1 (required_includes_ok _ (fst kv)) Hr) as [b ->].
        cbn [rbind].
        destruct (proj1 (IH false (snd kv) (d + 1)%nat (Hbelow kv Hkv))
                    (Hk kv Hkv)) as [r [-> _]].
        eexists; reflexivity.
      + eexists; split; [reflexivity | eauto].
    - intros r E. exfalso.
      match type of E with
      | context [rmap ?f kvs] =>
          destruct (rmap f kvs) as [fields|] eqn:Er; [|discriminate];
          pose proof (proj1 (rmap_ok_iff f kvs) (ex_intro _ fields Er)) as A
      end.
      apply andb_false_iff in H. destruct H as [H|H].
      + destruct (A kv0 (or_introl eq_refl)) as [y Ey].
        rewrite (proj2 (required_includes_ok _ (fst kv0)) H) in Ey.
        discriminate.
      + destruct (forallb_false _ _ H) as [kv [Hkv Pkv]].
        destruct (A kv Hkv) as [y Ey].
        destruct (required_includes (member s (lit "required")) (fst kv));
          [|discriminate].
        cbn [rbind] in Ey.
        destruct (toType_rec n (snd kv) (d + 1)) as [r'|] eqn:Ek';
          [|discriminate].
        destruct (proj2 (IH false (snd kv) (d + 1)%nat (Hbelow kv Hkv))
                    Pkv r' Ek') as [F _].
        discriminate. }
  unfold names_inherited.
  destruct (toString_printable (member s (lit "type"))) as [P1 P2].
  destruct (printable (member s (lit "type"))).
  - destruct (P1 eq_refl) as [key ->]. cbn [rbind andb].
    destruct (scalar_table_cases key) as [S1 S2].
    destruct (includes Object_prototype_names key).
    + rewrite (S1 eq_refl). destruct root; cbn [andb negb]; split.
      * discriminate.
      * intros _ r E. inversion E. split; [reflexivity | eauto].
      * intros _. eexists; split; [reflexivity | discriminate].
      * discriminate.
    + destruct (S2 eq_refl) as [t ->]. rewrite andb_false_r. cbn [negb].
      split; [intros _; eexists; split; [reflexivity | eauto]
             | discriminate].
  - rewrite (P2 eq_refl). cbn [rbind andb].
    split; [discriminate | intros _ r E; discriminate E].
Qed.

(** The check looks at [self] only below the value it is given. *)
Lemma well_formed_body_ext f g root s d :
  (forall v d', (height v < height s)%nat -> f v d' = g v d') ->
  well_formed_body f root s d = well_formed_body g root s d.
Proof.
  intros H. unfold well_formed_body.
  destruct (negb (truthy s)); [reflexivity|].
  destruct (truthy (member s (lit "enum"))); [reflexivity|].
  destruct (is_str (member s (lit "type")) (lit "array")).
  { destruct (truthy (member s (lit "items"))) eqn:Ti; [|reflexivity].
    apply (H _ _ (member_height s _ Ti)). }
  destruct (is_str (member s (lit "type")) (lit "object")); [|reflexivity].
  destruct (truthy (member s (lit "properties"))) eqn:Tp; [|reflexivity].
  destruct (2 <? d)%nat; [reflexivity|]. cbn [negb orb].
  destruct (entries (member s (lit "properties"))) as [kvs|e] eqn:Ek;
    [|reflexivity].
  assert (E : forallb (fun kv => f (snd kv) (d + 1)%nat) kvs
              = forallb (fun kv => g (snd kv) (d + 1)%nat) kvs).
  { assert (A : forall kv, In kv kvs -> f (snd kv) (d + 1)%nat
                                        = g (snd kv) (d + 1)%nat).
    { intros kv Hkv. apply H.
      pose proof (entries_height _ _ _ Ek Hkv).
      pose proof (member_height s _ Tp). lia. }
    clear Ek. induction kvs as [|kv t IHt]; [reflexivity|].
    cbn [forallb]. rewrite (A kv (or_introl eq_refl)).
    rewrite IHt; [reflexivity|]. intros x Hx. apply A. right. exact Hx. }
  rewrite E. reflexivity.
Qed.

Lemma well_formed_rec_stable n : forall m root s d,
  (height s < n)%nat -> (height s < m)%nat ->
  well_formed_rec n root s d = well_formed_rec m root s d.
Proof.
  induction n as [|n IH]; intros m root s d Hn Hm; [lia|].
  destruct m as [|m]; [lia|]. cbn [well_formed_rec].
  apply well_formed_body_ext. intros v d' Hv. apply IH; lia.
Qed.

(** [well_formed] satisfies the recursive description: the check of the
    root over the check of the nodes below it. *)
Lemma well_formed_unfold s d :
  well_formed s d = well_formed_body well_formed_below true s d.
Proof.
  unfold well_formed.
  change (well_formed_rec (S (height s)) true s d)
    with (well_formed_body (well_formed_rec (height s) false) true s d).
  apply well_formed_body_ext. intros v d' Hv. unfold well_formed_below.
  apply well_formed_rec_stable; lia.
Qed.

Lemma well_formed_below_unfold s d :
  well_formed_below s d = well_formed_body well_formed_below false s d.
Proof.
  unfold well_formed_below at 1.
  change (well_formed_rec (S (height s)) false s d)
    with (well_formed_body (well_formed_rec (height s) false) false s d).
  apply well_formed_body_ext. intros v d' Hv. unfold well_formed_below.
  apply well_formed_rec_stable; lia.
Qed.

(** The check accepts every schema in which [enum], [required] and [type]
    are well-shaped at every object. *)
Lemma schema_ok_well_formed s d :
  schema_ok s = true -> well_formed s d = true.
Proof.
  intros H. unfold well_formed.
  destruct (well_formed_rec_spec (S (height s)) true s d
              (Nat.lt_succ_diag_r _)) as [_ H2].
  destruct (well_formed_rec (S (height s)) true s d); [reflexivity|].
  destruct (toType_rec_ok (S (height s)) s d (Nat.lt_succ_diag_r _) H)
    as [t Et].
  destruct (H2 eq_refl _ Et) as [_ [name F]]. discriminate.
Qed.

(** C3, as amended.  [toType] returns a signature text exactly on the
    schema values that pass the check [well_formed], which follows the
    path [toType] takes and asks, of each schema node on it: that a truthy
    [enum] is an array none of whose elements leads, through arrays, to an
    object with a [toString] member of its own; that [required], where
    [properties] is expanded and has at least one entry, is absent,
    [null], an array or a string; and that a [type] that goes to the
    lookup table leads to no such object either and, at the root, does not
    print as the name of a member of [Object.prototype].  Members that
    [toType] does not read are free: [properties] of any shape, a
    parameter named [type], a [type] given as an array, and whatever lies
    below the depth cap. *)
Theorem toType_returns (s : JSVal) (d : nat) :
  well_formed s d = true <-> exists text, toType s d = Ok (Text text).
Proof.
  unfold well_formed, toType.
  destruct (well_formed_rec_spec (S (height s)) true s d
              (Nat.lt_succ_diag_r _)) as [H1 H2].
  split.
  - intros H. destruct (H1 H) as [r [E T]].
    destruct (T eq_refl) as [t ->]. exists t. exact E.
  - intros [text E].
    destruct (well_formed_rec (S (height s)) true s d); [reflexivity|].
    destruct (H2 eq_refl _ E) as [_ [name F]]. discriminate.
Qed.

(** A schema with a parameter named [type], next to a required one:
    [{ type: "object",
       properties: { type: { type: "string" }, id: { type: "number" } },
       required: ["id"] }]. *)
Lemma toType_returns_witness :
  exists text,
    toType (JObj [(lit "type", JStr (lit "object"));
                  (lit "properties",
                   JObj [(lit "type", JObj [(lit "type", JStr (lit "string"))]);
                         (lit "id", JObj [(lit "type", JStr (lit "number"))])]);
                  (lit "required", JArr [JStr (lit "id")])]) 0
    = Ok (Text text).
Proof.
  apply (proj1 (toType_returns _ 0)). vm_compute. reflexivity.
Defined.

(** C3, as stated, fails: on the schema [{ enum: "red" }], whose [enum] is
    not an array, [toType] raises [TypeError] and returns nothing. *)
Lemma toType_raises :
  toType (JObj [(lit "enum", JStr (lit "red"))]) 0 = Throw TypeError
  /\ ~ (exists r, toType (JObj [(lit "enum", JStr (lit "red"))]) 0 = Ok r).
Proof.
  split; [reflexivity|]. intros [r H]. vm_compute in H. discriminate.
Qed.

(** Other shapes on which [toType] does not return a text: a [required]
    that is a number next to a declared property, and a [type] that names
    an inherited member. *)
Lemma toType_required_number :
  toType (JObj [(lit "type", JStr (lit "object"));
                (lit "properties", JObj [(lit "n", JObj [])]);
                (lit "required", JNum 1)]) 0
  = Throw TypeError.
Proof. reflexivity. Qed.

Lemma toType_inherited_member :
  toType (JObj [(lit "type", JStr (lit "constructor"))]) 0
  = Ok (Inherited (lit "constructor")).
Proof. reflexivity. Qed.

(** ** Backend connector *)

Lemma closes_app a b : closes (a ++ b) = (closes a + closes b)%nat.
Proof. unfold closes. rewrite filter_app, length_app. reflexivity. Qed.

Lemma request_tools_leaves_closing w : leaves_closing (request_tools w).
Proof.
  intros c st. exists [EvListTools c]. split; reflexivity.
Qed.

Lemma call_tool_leaves_closing w toolName arguments :
  leaves_closing (call_tool w toolName arguments).
Proof.
  intros c st. exists [EvCallTool c toolName arguments]. split; reflexivity.
Qed.

(** The connector, path by path. *)
Lemma getClient_run {T} w cfg name (cb : Client -> M T) st tr :
  make_transport w (expand w cfg) = Ok tr ->
  let client := {| clientName := name; transport := tr |} in
  let opened := {| server := server st; serverConfig := serverConfig st;
                   toolRegistry := toolRegistry st;
                   log := log st ++ [EvConnect client] |} in
  let closed (s : state) := {| server := server s;
                               serverConfig := serverConfig s;
                               toolRegistry := toolRegistry s;
                               log := log s ++ [EvClose client] |} in
  getClient w cfg name cb st
  = match connect w client with
    | Some e =>
        (match close w client with
         | None => Throw e
         | Some e' => Throw e'
         end, closed opened)
    | None =>
        (match close w client with
         | None => fst (cb client opened)
         | Some e' => Throw e'
         end, closed (snd (cb client opened)))
    end.
Proof.
  intros Htr client opened closed.
  unfold getClient, bind, lift. rewrite Htr.
  unfold try_finally, client_connect, client_close, bind, emit, settled.
  fold client. fold opened.
  destruct (connect w client) as [e|].
  - unfold throw. fold (closed opened).
    destruct (close w client); reflexivity.
  - unfold ret. destruct (cb client opened) as [[a|e] st'] eqn:E; simpl;
      fold (closed st'); destruct (close w client); reflexivity.
Qed.

(** C4.  In every call of the connector that opens a session, the log
    grows by the opening of the session, what the callback does, and the
    closing of the session as the last event before the call returns or
    raises: the session is closed exactly once, whether the callback
    returns, the callback raises or the connection fails.  (When the
    transport cannot be built no session is opened and the call raises at
    once.) *)
Theorem getClient_closes_once {T} (w : World) (cfg : Server)
  (name : jsstring) (cb : Client -> M T) (st : state) :
  leaves_closing cb ->
  match make_transport w (expand w cfg) with
  | Throw e => getClient w cfg name cb st = (Throw e, st)
  | Ok tr =>
      let client := {| clientName := name; transport := tr |} in
      exists mid,
        log (snd (getClient w cfg name cb st))
        = log st ++ EvConnect client :: mid ++ [EvClose client]
        /\ closes mid = 0%nat
        /\ closes (EvConnect client :: mid ++ [EvClose client]) = 1%nat
  end.
Proof.
  intros Hcb.
  destruct (make_transport w (expand w cfg)) as [tr|e] eqn:Htr.
  2:{ unfold getClient, bind, lift. rewrite Htr. reflexivity. }
  intros client. rewrite (getClient_run w cfg name cb st tr Htr).
  fold client.
  destruct (connect w client) as [e|].
  - exists []. simpl. rewrite <- app_assoc. repeat split.
  - match goal with
    | |- context [cb client ?s] =>
        destruct (Hcb client s) as [evs [Hlog Hev]]
    end.
    exists evs. cbn [snd log]. rewrite Hlog. cbn [log].
    rewrite <- !app_assoc. simpl. repeat split; [exact Hev|].
    change (EvConnect client :: evs ++ [EvClose client])
      with ([EvConnect client] ++ evs ++ [EvClose client]).
    rewrite !closes_app, Hev. reflexivity.
Qed.

(** ** Invocation router *)

(** C6.  When no entry of the registry has the given backend identifier
    and tool name, [executeTool] raises the error
    [Tool <backend>.<tool> not found] and leaves the state, and so the log
    of sessions and requests, as it was: the connector is not entered. *)
Theorem executeTool_unregistered (w : World) (st : state)
  (serverName toolName : jsstring) (arguments : JSVal) :
  (forall e, In e (toolRegistry st) ->
             ~ (Entry.serverName e = serverName
                /\ name (Entry.tool e) = toolName)) ->
  executeTool w serverName toolName arguments st
  = (Throw (Error (lit "Tool " ++ serverName ++ lit "." ++ toolName
                   ++ lit " not found")), st).
Proof.
  intros H. unfold executeTool, bind, get_state.
  destruct (find _ (toolRegistry st)) as [entry|] eqn:F; [|reflexivity].
  exfalso. apply find_some in F. destruct F as [Hin Hm].
  apply andb_true_iff in Hm. destruct Hm as [H1 H2].
  apply eqb_eq in H1. apply eqb_eq in H2.
  exact (H entry Hin (conj H1 H2)).
Qed.

(** C7.  When the pair is registered and the session opens, answers and
    closes, [executeTool] returns; what it returns is the structured
    payload when the result has one (an object, with or without an
    unstructured payload next to it), and the unstructured payload when the
    structured one is absent. *)
Theorem executeTool_payload (w : World) (st : state)
  (serverName toolName : jsstring) (arguments : JSVal)
  (entry : Entry.t) (tr : Transport) (result : CallToolResult) :
  find (fun e => eqb (Entry.serverName e) serverName
                 && eqb (name (Entry.tool e)) toolName)
       (toolRegistry st) = Some entry ->
  make_transport w (expand w (Entry.cfg entry)) = Ok tr ->
  connect w {| clientName := serverName; transport := tr |} = None ->
  callTool w {| clientName := serverName; transport := tr |}
           toolName arguments = Ok result ->
  close w {| clientName := serverName; transport := tr |} = None ->
  exists value st',
    executeTool w serverName toolName arguments st = (Ok value, st')
    /\ (forall props, structuredContent result = JObj props ->
                      value = JObj props)
    /\ (structuredContent result = JUndefined -> value = content result).
Proof.
  intros Hf Htr Hc Hr Hx.
  unfold executeTool, bind at 1, get_state. rewrite Hf.
  unfold bind at 1.
  rewrite (getClient_run w _ serverName _ st tr Htr).
  rewrite Hc, Hx.
  unfold call_tool at 1 2, bind, emit, lift. cbn [fst snd]. rewrite Hr.
  unfold ret. do 2 eexists. split; [reflexivity|].
  unfold js_or. split.
  - intros props ->. reflexivity.
  - intros ->. reflexivity.
Qed.

(** ** Catalog aggregator *)

Lemma getClient_request_tools w backend st :
  exists r st',
    getClient w (snd backend) (fst backend) (request_tools w) st = (r, st')
    /\ server st' = server st
    /\ serverConfig st' = serverConfig st
    /\ toolRegistry st' = toolRegistry st
    /\ match backend_tools w backend with
       | Some serverTools => r = Ok serverTools
       | None => exists e, r = Throw e
       end.
Proof.
  unfold backend_tools.
  destruct (make_transport w (expand w (snd backend))) as [tr|e] eqn:Htr.
  2:{ unfold getClient, bind, lift. rewrite Htr.
      do 2 eexists. repeat split. eexists; reflexivity. }
  rewrite (getClient_run w _ _ _ st tr Htr).
  cbv zeta. unfold request_tools, bind, emit, lift. cbn [fst snd].
  destruct (connect w _) as [e|];
    [destruct (close w _); do 2 eexists; repeat split; eexists; reflexivity|].
  destruct (listTools w _) as [ts|e];
    destruct (close w _); do 2 eexists; repeat split;
    try reflexivity; eexists; reflexivity.
Qed.

Lemma register_tools_run serverName cfg (l : list ServerTool) :
  forall acc st, exists acc' st',
    fold_M (register_tool serverName cfg) l acc st = (Ok acc', st')
    /\ server st' = server st
    /\ toolRegistry st'
       = toolRegistry st ++ map (entry_of (serverName, cfg)) l
    /\ toolList acc' = toolList acc ++ map (listed (serverName, cfg)) l.
Proof.
  induction l as [|t l IH]; intros acc st.
  - exists acc, st. simpl. rewrite !app_nil_r. repeat split.
  - cbn [fold_M]. unfold bind at 1.
    unfold register_tool at 1, bind, get_state, set_serverConfig,
      set_toolRegistry, ret.
    cbn [serverConfig toolRegistry server log].
    match goal with
    | |- context [fold_M _ l ?a ?s] =>
        destruct (IH a s) as [acc' [st' [E [Hs [Hr Hl]]]]]
    end.
    exists acc', st'. split; [exact E|].
    cbn [rawTools toolList toolRegistry server] in *.
    rewrite Hs, Hr, Hl. cbn [map]. rewrite <- !app_assoc.
    repeat split.
Qed.

Lemma aggregate_backend_run w acc backend st :
  exists acc' st',
    aggregate_backend w acc backend st = (Ok acc', st')
    /\ server st' = server st
    /\ toolRegistry st' = toolRegistry st ++ contribution w backend
    /\ toolList acc' = toolList acc ++ catalog w backend.
Proof.
  unfold aggregate_backend, try_catch, bind at 1.
  destruct (getClient_request_tools w backend st)
    as [r [st1 [E [Hs [_ [Hr Hb]]]]]].
  rewrite E. unfold contribution, catalog, surviving.
  destruct (backend_tools w backend) as [serverTools|].
  - subst r.
    destruct (register_tools_run (fst backend) (snd backend)
                (filteredTools (snd backend) serverTools) acc st1)
      as [acc' [st' [E' [Hs' [Hr' Hl']]]]].
    rewrite E'. do 2 eexists. split; [reflexivity|].
    rewrite Hr', Hr, Hs', Hs, Hl'.
    destruct backend; repeat split.
  - destruct Hb as [e ->].
    unfold bind, emit, ret. do 2 eexists. split; [reflexivity|].
    cbn [server toolRegistry]. rewrite !app_nil_r. repeat split; assumption.
Qed.

Lemma aggregate_all_run w (backends : list (jsstring * Server)) :
  forall acc st, exists acc' st',
    fold_M (aggregate_backend w) backends acc st = (Ok acc', st')
    /\ server st' = server st
    /\ toolRegistry st'
       = toolRegistry st ++ flat_map (contribution w) backends
    /\ toolList acc' = toolList acc ++ flat_map (catalog w) backends.
Proof.
  induction backends as [|b bs IH]; intros acc st.
  - exists acc, st. simpl. rewrite !app_nil_r. repeat split.
  - cbn [fold_M]. unfold bind at 1.
    destruct (aggregate_backend_run w acc b st)
      as [acc1 [st1 [E [Hs [Hr Hl]]]]].
    rewrite E.
    destruct (IH acc1 st1) as [acc' [st' [E' [Hs' [Hr' Hl']]]]].
    exists acc', st'. split; [exact E'|].
    cbn [flat_map]. rewrite Hs', Hr', Hl', Hs, Hr, Hl, <- !app_assoc.
    repeat split.
Qed.

(** The whole aggregation: the registry after it, and its outcome. *)
Lemma getAllServerTools_run w backends st :
  exists st',
    getAllServerTools w {| servers := Some backends |} st
    = (match generateInterfaces (flat_map (catalog w) (settle w backends)) with
       | Ok _ => Ok tt
       | Throw e => Throw e
       end, st')
    /\ server st' = server st
    /\ toolRegistry st'
       = toolRegistry st ++ flat_map (contribution w) (settle w backends).
Proof.
  unfold getAllServerTools. cbn [servers]. unfold bind at 1.
  destruct (aggregate_all_run w (settle w backends)
              {| rawTools := []; toolList := [] |} st)
    as [acc [st1 [E [Hs [Hr Hl]]]]].
  rewrite E. cbn [toolList app] in Hl. rewrite Hl.
  unfold bind, get_state, set_serverConfig, lift.
  destruct (generateInterfaces _) as [text|e];
    eexists; (split; [reflexivity|]); cbn [server toolRegistry];
    split; assumption.
Qed.

Lemma generateInterface_ok (tool : ServerTool) :
  schema_ok (inputSchema tool) = true ->
  exists text, generateInterface tool = Ok text.
Proof.
  intros H. unfold generateInterface.
  destruct (toType_rec_ok (S (height (inputSchema tool)))
              (inputSchema tool) 0 (Nat.lt_succ_diag_r _) H) as [t E].
  unfold toType. rewrite E.
  destruct (1 <? _)%nat; eexists; reflexivity.
Qed.

Lemma generateInterfaces_ok (tools : list ServerTool) :
  forallb (fun t => schema_ok (inputSchema t)) tools = true ->
  exists text, generateInterfaces tools = Ok text.
Proof.
  intros H. unfold generateInterfaces.
  destruct (rmap_ok generateInterface tools) as [texts ->].
  - intros t Ht. apply generateInterface_ok.
    rewrite forallb_forall in H. exact (H t Ht).
  - eexists; reflexivity.
Qed.

Lemma forallb_perm {A} (f : A -> bool) (l l' : list A) :
  Permutation l l' -> forallb f l' = true -> forallb f l = true.
Proof.
  intros P H. rewrite forallb_forall in *. intros x Hx.
  apply H. exact (Permutation_in x P Hx).
Qed.

(** C2, as amended.  Whatever backends fail, the registry grows by exactly
    the surviving tools of the backends whose listing succeeds, a failing
    backend adds nothing, and no failure of a backend escapes.  The
    aggregation as a whole completes when, in addition, the signature
    synthesiser returns for the schema of every surviving tool (here: the
    schemas satisfy [schema_ok]) and no published name is inherited from
    [Object.prototype]; an exception that escapes comes from the
    synthesiser. *)
Theorem getAllServerTools_partial (w : World)
  (backends : list (jsstring * Server)) (st : state) :
  Permutation (settle w backends) backends ->
  exists outcome st',
    getAllServerTools w {| servers := Some backends |} st = (outcome, st')
    /\ (exists added,
           toolRegistry st' = toolRegistry st ++ added
           /\ Permutation added (flat_map (contribution w) backends))
    /\ (forall backend,
           backend_tools w backend = None -> contribution w backend = [])
    /\ (forall backend serverTools,
           backend_tools w backend = Some serverTools ->
           contribution w backend
           = map (entry_of backend) (filteredTools (snd backend) serverTools))
    /\ (own_names (flat_map (catalog w) backends) = true ->
        (forallb (fun t => schema_ok (inputSchema t))
                 (flat_map (catalog w) backends) = true ->
         outcome = Ok tt)
        /\ (forall e, outcome = Throw e ->
                      generateInterfaces
                        (flat_map (catalog w) (settle w backends))
                      = Throw e)).
Proof.
  intros P.
  destruct (getAllServerTools_run w backends st) as [st' [E [_ Hr]]].
  do 2 eexists. split; [exact E|]. split; [|split; [|split]].
  - eexists. split; [exact Hr|]. apply Permutation_flat_map. exact P.
  - intros backend Hb. unfold contribution, surviving. rewrite Hb.
    reflexivity.
  - intros backend serverTools Hb. unfold contribution, surviving.
    rewrite Hb. reflexivity.
  - intros _. split.
    + intros Hs.
      destruct (generateInterfaces_ok
                  (flat_map (catalog w) (settle w backends))) as [text ->];
        [|reflexivity].
      apply (forallb_perm _ _ (flat_map (catalog w) backends));
        [apply Permutation_flat_map; exact P | exact Hs].
    + intros e He. destruct (generateInterfaces _); congruence.
Qed.

(** ** Start-up *)

(** C1, as amended.  When the configuration file cannot be read, or holds
    text other than the empty string that [JSON.parse] rejects, [init]
    raises that error and leaves the state as it was: nothing is
    aggregated, the registry stays empty, and no backend is contacted. *)
Theorem init_config_failure (w : World) (st : state) (e : exn) :
  readFile w (config_path w) = Throw e
  \/ (exists text, readFile w (config_path w) = Ok text
                   /\ text <> [] /\ JSON_parse w text = Throw e) ->
  init w st = (Throw e, st).
Proof.
  intros [H|[text [H [Hne Hp]]]]; unfold init, bind at 1, lift; rewrite H.
  - reflexivity.
  - unfold bind at 1. destruct text as [|c t]; [congruence|].
    cbn [or_empty_document]. rewrite Hp. reflexivity.
Qed.

(* ===================================================================== *)
(** * Examples *)
(* ===================================================================== *)

(** The spec's three filter examples on the tools [a], [b], [c]. *)
Example filter_allow :
  map name (filteredTools
              (local "x" (Some {| allow := Some [lit "a"; lit "c"];
                                  deny := Some [lit "a"] |}))
              [tool_named "a" JNull; tool_named "b" JNull;
               tool_named "c" JNull])
  = [lit "a"; lit "c"].
Proof. reflexivity. Qed.

Example filter_deny :
  map name (filteredTools
              (local "x" (Some {| allow := None; deny := Some [lit "b"] |}))
              [tool_named "a" JNull; tool_named "b" JNull;
               tool_named "c" JNull])
  = [lit "a"; lit "c"].
Proof. reflexivity. Qed.

(** The spec's examples of signatures. *)
Example signature_required :
  toType number_schema 0 = Ok (Text (lit "{ n: number }")).
Proof. reflexivity. Qed.

Example signature_enum :
  toType (JObj [(lit "enum", JArr [JStr (lit "a"); JStr (lit "b")])]) 0
  = Ok (Text ([dquote] ++ lit "a" ++ [dquote] ++ lit " | "
              ++ [dquote] ++ lit "b" ++ [dquote])).
Proof. reflexivity. Qed.

Example signature_optional :
  toType (JObj [(lit "type", JStr (lit "object"));
                (lit "properties",
                 JObj [(lit "n", JObj [(lit "type", JStr (lit "number"))])])])
         0
  = Ok (Text (lit "{ n?: number }")).
Proof. reflexivity. Qed.

(** A parameter named [type], and a [type] given as an array of names. *)
Example signature_parameter_named_type :
  toType (JObj [(lit "type", JStr (lit "object"));
                (lit "properties",
                 JObj [(lit "type", JObj [(lit "type", JStr (lit "string"))]);
                       (lit "id", JObj [(lit "type", JStr (lit "number"))])]);
                (lit "required", JArr [JStr (lit "id")])]) 0
  = Ok (Text (lit "{ type?: string; id: number }")).
Proof. reflexivity. Qed.

Example signature_type_array :
  toType (JObj [(lit "type", JArr [JStr (lit "string"); JStr (lit "null")])])
         0
  = Ok (Text (lit "any")).
Proof. reflexivity. Qed.

(** A variable that is set to the empty string, in the middle of a text
    with a dollar sign of its own. *)
Example expandEnv_empty_variable :
  expandEnv (fun v => if eqb v (lit "TOKEN") then Some [] else None)
            (lit "cost $5 ${TOKEN}!")
  = lit "cost $5 ${TOKEN}!".
Proof. reflexivity. Qed.

(** A name that is not set but is inherited by [process.env]: the text of
    the inherited function is put in. *)
Example expandEnv_inherited_name :
  expandEnv (fun _ => None) (lit "id ${toString}")
  = lit "id function toString() { [native code] }".
Proof. reflexivity. Qed.

(** Behind an open [${] the text [${TOKEN}] is not a placeholder: the
    pattern matches from the first [${] on, and the name it captures is
    [a${TOKEN]. *)
Example expandEnv_open_prefix :
  expandEnv (fun v => if eqb v (lit "a${TOKEN") then Some (lit "x")
                      else None)
            (lit "${a${TOKEN}")
  = lit "x".
Proof. reflexivity. Qed.

(** Four nested objects: the one at depth 3 is rendered as the open
    mapping. *)
Example signature_depth_cap :
  let nest inner :=
    JObj [(lit "type", JStr (lit "object"));
          (lit "properties", JObj [(lit "p", inner)])] in
  toType (nest (nest (nest (nest (JObj [(lit "type", JStr (lit "string"))])))))
         0
  = Ok (Text (lit "{ p?: { p?: { p?: { [key: string]: any } } } }")).
Proof. reflexivity. Qed.

(** A callback that reports an error: the session is opened, used and
    closed, once, and the error is raised. *)
Lemma getClient_closes_once_witness :
  exists mid,
    log (snd (getClient (example_world []) (snd backend_X) (fst backend_X)
                (call_tool (example_world []) (lit "fail") JNull)
                initial_state))
    = log initial_state ++ EvConnect session_of_X :: mid
                        ++ [EvClose session_of_X]
    /\ closes mid = 0%nat
    /\ closes (EvConnect session_of_X :: mid ++ [EvClose session_of_X])
       = 1%nat.
Proof.
  refine (getClient_closes_once (example_world [])
            (snd backend_X) (fst backend_X)
            (call_tool (example_world []) (lit "fail") JNull)
            initial_state _).
  intros c st. exists [EvCallTool c (lit "fail") JNull].
  split; reflexivity.
Defined.

Lemma executeTool_unregistered_witness :
  executeTool (example_world []) (lit "X") (lit "b") JNull
              (registered [tool_named "a" JNull])
  = (Throw (Error (lit "Tool X.b not found")),
     registered [tool_named "a" JNull]).
Proof.
  refine (executeTool_unregistered (example_world []) _ (lit "X") (lit "b")
            JNull _).
  intros e [<-|[]] [_ H]. vm_compute in H. discriminate.
Defined.

Lemma executeTool_payload_witness :
  exists value st',
    executeTool (example_world []) (lit "X") (lit "a") JNull
                (registered [tool_named "a" JNull])
    = (Ok value, st')
    /\ (forall props, JObj [(lit "sum", JNum 3)] = JObj props ->
                      value = JObj props)
    /\ (JObj [(lit "sum", JNum 3)] = JUndefined ->
        value = JArr [JStr (lit "3")]).
Proof.
  refine (executeTool_payload (example_world []) _ (lit "X") (lit "a") JNull
            (entry_of backend_X (tool_named "a" JNull))
            (transport session_of_X)
            {| structuredContent := JObj [(lit "sum", JNum 3)];
               content := JArr [JStr (lit "3")] |} _ _ _ _ _);
    reflexivity.
Defined.

(** The spec's example of partial failure: X is healthy, Y cannot be
    reached; the aggregation completes and the registry holds the tools of
    X. *)
Lemma getAllServerTools_partial_witness :
  exists st',
    getAllServerTools (example_world [tool_named "add" number_schema])
                      {| servers := Some [backend_X; backend_Y] |} initial_state
    = (Ok tt, st')
    /\ Permutation (toolRegistry st')
                   [entry_of backend_X (tool_named "add" number_schema)].
Proof.
  destruct (getAllServerTools_partial
              (example_world [tool_named "add" number_schema])
              [backend_X; backend_Y]
              initial_state (Permutation_refl _))
    as [outcome [st' [E [[added [Hr Hp]] [_ [_ Hc]]]]]].
  exists st'. rewrite E, Hr. split.
  - f_equal. apply Hc; vm_compute; reflexivity.
  - exact Hp.
Defined.

(** C2, as stated, fails: X is healthy and lists one tool, whose schema
    has an [enum] that is not an array; Y cannot be reached.  The
    aggregation raises [TypeError]. *)
Lemma getAllServerTools_raises :
  backend_tools (example_world [tool_named "paint" color_schema]) backend_X
  = Some [tool_named "paint" color_schema]
  /\ backend_tools (example_world [tool_named "paint" color_schema]) backend_Y
     = None
  /\ fst (getAllServerTools (example_world [tool_named "paint" color_schema])
            {| servers := Some [backend_X; backend_Y] |} initial_state)
     = Throw TypeError.
Proof.
  repeat split.
Qed.

(** An empty configuration file is read as the document [{}], which has
    no [servers]: [getAllServerTools] raises [TypeError]. *)
Lemma init_empty_file (w : World) (st : state) :
  readFile w (config_path w) = Ok [] ->
  JSON_parse w (lit "{}") = Ok {| servers := None |} ->
  init w st = (Throw TypeError, st).
Proof.
  intros Hr Hp. unfold init, bind at 1, lift. rewrite Hr.
  unfold bind at 1. cbn [or_empty_document]. rewrite Hp.
  reflexivity.
Qed.

Lemma init_config_failure_witness :
  init (example_world []) initial_state
  = (Throw (Failure (lit "ENOENT")), initial_state).
Proof.
  apply init_config_failure. left. reflexivity.
Defined.

(** C1, as stated, fails: with the configuration file missing, [init]
    raises the error of [readFile] and does not complete. *)
Lemma init_missing_file_raises :
  readFile (example_world []) (config_path (example_world []))
  = Throw (Failure (lit "ENOENT"))
  /\ ~ starts_empty (example_world []).
Proof.
  split; [reflexivity|].
  intros [st' [H _]]. vm_compute in H. discriminate.
Qed.

(* ===================================================================== *)
(** * Further properties *)
(* ===================================================================== *)
(** ** Sanitiser, continued *)

Lemma legal_spec s :
  legal s = true
  <-> Forall (fun c => is_word c = true) s
      /\ match s with c :: _ => is_digit c = false | [] => True end.
Proof.
  unfold legal. rewrite andb_true_iff, forallb_forall, Forall_forall,
    negb_true_iff.
  destruct s; intuition.
Qed.

Lemma sanitize_head name :
  match sanitize name with c :: _ => is_digit c = false | [] => True end.
Proof.
  unfold sanitize, prefix_digit.
  destruct (replace_nonword name) as [|c s]; [exact I|].
  destruct (is_digit c) eqn:E; [reflexivity | exact E].
Qed.

(** X1.  Whatever the name, its sanitised form consists of letters, digits
    and underscores only, and does not start with a digit. *)
Theorem sanitize_legal (name : jsstring) : legal (sanitize name) = true.
Proof.
  apply legal_spec. split; [apply sanitize_words | apply sanitize_head].
Qed.

(** X2.  The names [sanitize] leaves alone are exactly the names that are
    already made of letters, digits and underscores and do not start with
    a digit. *)
Theorem sanitize_fixed (name : jsstring) :
  sanitize name = name <-> legal name = true.
Proof.
  split.
  - intros E. rewrite <- E. apply legal_spec.
    split; [apply sanitize_words | apply sanitize_head].
  - intros H. apply legal_spec in H. destruct H as [Hw Hd].
    unfold sanitize. rewrite (replace_nonword_fixed name Hw).
    destruct name as [|c s]; [reflexivity|].
    simpl. rewrite Hd. reflexivity.
Qed.

Lemma is_digit_replace c :
  is_digit (if is_word c then c else underscore) = is_digit c.
Proof.
  destruct (is_word c) eqn:W; [reflexivity|].
  destruct (is_digit c) eqn:D; [|reflexivity].
  rewrite (is_digit_word c D) in W. discriminate.
Qed.

(** X3.  [sanitize] replaces characters one for one: the result is as long
    as the name, plus one when the name starts with a digit. *)
Theorem sanitize_length (name : jsstring) :
  List.length (sanitize name)
  = (List.length name
     + match name with
       | c :: _ => if is_digit c then 1 else 0
       | [] => 0
       end)%nat.
Proof.
  unfold sanitize, prefix_digit, replace_nonword.
  destruct name as [|c s]; [reflexivity|].
  cbn [map]. rewrite is_digit_replace.
  destruct (is_digit c); simpl; rewrite length_map; lia.
Qed.

(** ** Qualification, continued *)

Lemma split_dotfree s : ~ In dot s -> split dot s = [s].
Proof.
  induction s as [|c t IH]; simpl; intros H; [reflexivity|].
  destruct (N.eqb_spec c dot) as [->|_]; [exfalso; apply H; left; reflexivity|].
  rewrite IH; [reflexivity|]. intros Hin. apply H. right. exact Hin.
Qed.

Lemma join_legal parts :
  Forall (fun p => legal p = true) parts ->
  legal (join [underscore] parts) = true.
Proof.
  intros H. apply legal_spec. split.
  - apply join_words; [constructor; [reflexivity | constructor]|].
    apply Forall_forall. intros p Hp. rewrite Forall_forall in H.
    exact (proj1 (proj1 (legal_spec p) (H p Hp))).
  - destruct H as [|p rest Hp Hrest]; [exact I|].
    apply legal_spec in Hp. destruct Hp as [_ Hd].
    destruct rest as [|q rest']; [exact Hd|].
    cbn [join]. destruct p as [|c p']; [reflexivity | exact Hd].
Qed.

Lemma flatten_tail_legal parts : legal (flatten_tail parts) = true.
Proof.
  unfold flatten_tail. apply join_legal. apply Forall_forall.
  intros p Hp. apply in_map_iff in Hp. destruct Hp as [q [<- _]].
  apply legal_spec. split; [apply sanitize_words | apply sanitize_head].
Qed.

Lemma qualified_parts serverName toolName :
  callableName serverName toolName
  = namespace_of (fullName serverName toolName)
    ++ dot :: tool_key_of (fullName serverName toolName).
Proof.
  unfold callableName, namespace_of, tool_key_of.
  pose proof (split_fullName_length serverName toolName) as L.
  apply Nat.ltb_lt in L. rewrite L. reflexivity.
Qed.

Lemma sanitize_empty s : sanitize s = [] <-> s = [].
Proof.
  unfold sanitize, replace_nonword, prefix_digit.
  destruct s as [|c t]; [tauto|]. cbn [map].
  destruct (is_digit (if is_word c then c else underscore));
    split; discriminate.
Qed.

Lemma hd_split_app a b :
  hd [] (split dot (a ++ dot :: b)) = hd [] (split dot a).
Proof.
  induction a as [|c t IH]; cbn [app split].
  - rewrite N.eqb_refl. reflexivity.
  - destruct (c =? dot); [reflexivity|].
    destruct (split dot (t ++ dot :: b)) as [|h r] eqn:E1;
      [exfalso; exact (split_nonempty _ _ E1)|].
    destruct (split dot t) as [|h' r'] eqn:E2;
      [exfalso; exact (split_nonempty _ _ E2)|].
    cbn [hd] in *. rewrite IH. reflexivity.
Qed.

Lemma namespace_empty serverName toolName :
  namespace_of (fullName serverName toolName) = []
  <-> hd [] (split dot serverName) = [].
Proof.
  unfold namespace_of, fullName. cbn [app]. rewrite hd_split_app.
  apply sanitize_empty.
Qed.

(** X4.  The three published views use one pair of keys.  For every
    backend identifier and raw tool name, the qualified name is a
    namespace, one dot and a tool key; both are made of letters, digits
    and underscores and neither starts with a digit (either can be empty,
    and the namespace is empty exactly when the backend identifier is
    empty or starts with a dot); splitting the qualified name at the dot
    gives the two back; [prepareTools], when neither key is an inherited
    name, files the tool under exactly that namespace and tool key; and
    [generateInterface] declares the function under the same two names
    (the branch without a namespace is never taken for a catalog
    entry). *)
Theorem qualified_views (serverName : jsstring) (cfg : Server)
  (tool : ServerTool) (fn : dispatch) :
  let full := fullName serverName (name tool) in
  let ns := namespace_of full in
  let key := tool_key_of full in
  legal ns = true /\ legal key = true
  /\ (ns = [] <-> hd [] (split dot serverName) = [])
  /\ callableName serverName (name tool) = ns ++ dot :: key
  /\ split dot (callableName serverName (name tool)) = [ns; key]
  /\ (own_entry full = true ->
      dispatch_of (prepareTools [(full, fn)]) ns key = Some fn)
  /\ generateInterface (listed (serverName, cfg) tool)
     = rbind (toType (inputSchema tool) 0) (fun signature =>
         Ok (lit "namespace " ++ ns ++ lit " { /* "
             ++ description_text (description tool) ++ lit " */ function "
             ++ key ++ lit "(args: " ++ text_of signature
             ++ lit "): Promise<any>; }")).
Proof.
  intros full ns key.
  assert (Lns : legal ns = true).
  { apply legal_spec. split; [apply sanitize_words | apply sanitize_head]. }
  assert (Lkey : legal key = true) by apply flatten_tail_legal.
  pose proof (qualified_parts serverName (name tool)) as Q.
  fold full in Q. fold ns in Q. fold key in Q.
  split; [exact Lns|]. split; [exact Lkey|].
  split; [apply namespace_empty|].
  split; [exact Q|].
  split; [|split].
  - rewrite Q. rewrite split_app by apply sanitize_no_dot.
    rewrite split_dotfree by apply flatten_tail_no_dot. reflexivity.
  - intros _. unfold prepareTools. cbn [fold_left]. unfold full.
    rewrite prepare_step_first. unfold dispatch_of. cbn [assoc].
    fold full. fold ns. rewrite eqb_refl. cbn [members assoc].
    fold key. rewrite eqb_refl. reflexivity.
  - unfold generateInterface, listed. cbn [name description inputSchema fst].
    pose proof (split_fullName_length serverName (name tool)) as L.
    apply Nat.ltb_lt in L. rewrite L. reflexivity.
Qed.

(** ** Objects as lists of own properties *)

Lemma assoc_upsert_same {A} k (v : A) l : assoc k (upsert k v l) = Some v.
Proof.
  induction l as [|[k' v'] t IH]; simpl.
  - rewrite eqb_refl. reflexivity.
  - destruct (eqb k k') eqn:E; simpl; rewrite E; [reflexivity | exact IH].
Qed.

Lemma assoc_upsert_other {A} k k' (v : A) l :
  k <> k' -> assoc k (upsert k' v l) = assoc k l.
Proof.
  intros Hk. induction l as [|[k0 v0] t IH]; simpl.
  - apply eqb_neq in Hk. rewrite Hk. reflexivity.
  - destruct (eqb k' k0) eqn:E; simpl.
    + apply eqb_eq in E. subst k0. apply eqb_neq in Hk. rewrite Hk.
      reflexivity.
    + destruct (eqb k k0); [reflexivity | exact IH].
Qed.

Lemma assoc_map_values {A B} (f : A -> B) k (l : list (jsstring * A)) :
  assoc k (map (fun kv => (fst kv, f (snd kv))) l) = option_map f (assoc k l).
Proof.
  induction l as [|[k' v'] t IH]; simpl; [reflexivity|].
  destruct (eqb k k'); [reflexivity | exact IH].
Qed.

(** ** Placeholder expansion, continued *)

Lemma match_placeholder_needs_brace s :
  ~ In rbrace s -> match_placeholder s = None.
Proof.
  intros H. destruct (match_placeholder s) as [[v rest]|] eqn:E;
    [|reflexivity].
  exfalso. apply H. rewrite (match_placeholder_sound _ _ _ E).
  unfold placeholder. simpl. right. right.
  rewrite <- app_assoc. apply in_or_app. right. left. reflexivity.
Qed.

(** X5.  Text that cannot hold a placeholder comes back unchanged, whatever
    the environment: text without a dollar sign, and text without a closing
    brace (an unterminated [${NAME] included).  A placeholder with an empty
    name, [${}], is not a placeholder either: it is copied and the scan
    goes on behind it. *)
Theorem expandEnv_inert (env : jsstring -> option jsstring) (s : jsstring) :
  (~ In dollar s -> expandEnv env s = s)
  /\ (~ In rbrace s -> expandEnv env s = s)
  /\ expandEnv env (placeholder [] ++ s) = placeholder [] ++ expandEnv env s.
Proof.
  split; [|split].
  - intros H. rewrite <- (app_nil_r s) at 1.
    rewrite (expandEnv_literal env s [] H). simp expandEnv.
    apply app_nil_r.
  - induction s as [|c t IH]; intros H; [reflexivity|].
    rewrite expandEnv_cons, (match_placeholder_needs_brace _ H).
    rewrite IH; [reflexivity|]. intros Hin. apply H. right. exact Hin.
  - unfold placeholder. simpl.
    rewrite expandEnv_cons. cbn [match_placeholder]. simpl.
    rewrite expandEnv_cons, match_placeholder_other by discriminate.
    rewrite expandEnv_cons, match_placeholder_other by discriminate.
    reflexivity.
Qed.

Lemma placeholders_clause c t m (e : match_placeholder (c :: t) = m) :
  placeholders_unfold_clause_2 c t (exist _ m e)
  = match m with
    | Some (v, rest) => v :: placeholders rest
    | None => placeholders t
    end.
Proof.
  destruct m as [[v rest]|]; reflexivity.
Qed.

Lemma placeholders_cons c t :
  placeholders (c :: t)
  = match match_placeholder (c :: t) with
    | Some (v, rest) => v :: placeholders rest
    | None => placeholders t
    end.
Proof.
  rewrite placeholders_equation_2. unfold inspect. apply placeholders_clause.
Qed.

(** X6.  Expansion changes nothing in a text all of whose placeholders
    name variables for which [process.env] gives nothing truthy: variables
    set to the empty string, and variables that are not set and whose
    name is not that of an inherited member.  The placeholders may stand
    anywhere in the text. *)
Lemma expandEnv_no_values env s :
  (forall v, In v (placeholders s) -> falsy_variable env v) ->
  expandEnv env s = s.
Proof.
  remember (List.length s) as n eqn:Hn. revert s Hn.
  induction n as [n IH] using lt_wf_ind. intros s Hn Henv.
  destruct s as [|c t]; [reflexivity|].
  rewrite expandEnv_cons. rewrite placeholders_cons in Henv.
  destruct (match_placeholder (c :: t)) as [[v rest]|] eqn:E.
  - pose proof (match_placeholder_sound _ _ _ E) as Hs.
    rewrite (IH (List.length rest) ltac:(subst n; rewrite Hs, length_app;
                                         unfold placeholder; simpl; lia)
                rest eq_refl (fun x Hx => Henv x (or_intror Hx))).
    destruct (replacer_cases env (placeholder v) v) as [R1 [_ [R3 _]]].
    destruct (Henv v (or_introl eq_refl)) as [H|[H1 H2]].
    + rewrite (R1 H). symmetry. exact Hs.
    + rewrite (R3 H1 H2). symmetry. exact Hs.
  - f_equal.
    apply (IH (List.length t) ltac:(subst n; simpl; lia) t eq_refl Henv).
Qed.

(** ** Backend connector, continued *)

(** X7.  [expand] touches the values of [headers] and [env] and nothing
    else: the address, the command, the arguments and the allow and deny
    lists are passed on as they are (placeholders in them are not
    expanded), an absent map stays absent, and a map keeps its keys in
    their order, every key now bound to the expansion of its value. *)
Theorem expand_values_only (w : World) (c : Server) :
  url (expand w c) = url c
  /\ command (expand w c) = command c
  /\ args (expand w c) = args c
  /\ codemode (expand w c) = codemode c
  /\ option_map (map fst) (headers (expand w c))
     = option_map (map fst) (headers c)
  /\ option_map (map fst) (env (expand w c)) = option_map (map fst) (env c)
  /\ (forall m k, headers c = Some m ->
        exists m', headers (expand w c) = Some m'
                   /\ assoc k m'
                      = option_map (expandEnv (process_env w)) (assoc k m))
  /\ (forall m k, env c = Some m ->
        exists m', env (expand w c) = Some m'
                   /\ assoc k m'
                      = option_map (expandEnv (process_env w)) (assoc k m)).
Proof.
  assert (K : forall m, map fst (expand_values w m) = map fst m).
  { intros m. unfold expand_values. rewrite map_map. reflexivity. }
  unfold expand. cbn [url command args codemode headers env].
  repeat split.
  - destruct (headers c); simpl; [rewrite K|]; reflexivity.
  - destruct (env c); simpl; [rewrite K|]; reflexivity.
  - intros m k ->. eexists. split; [reflexivity|].
    apply assoc_map_values.
  - intros m k ->. eexists. split; [reflexivity|].
    apply assoc_map_values.
Qed.

(** X8.  The choice of transport.  A configuration without address, or with
    the empty address, starts a local process, and whatever the
    configuration says its environment binds [NODE_NO_WARNINGS] to [1];
    every other variable has the expansion of its configured value.  A
    non-empty address selects the remote transport with the expanded
    headers when [new URL] accepts it, and raises [TypeError] otherwise;
    command, arguments and environment are then ignored. *)
Theorem transport_choice (w : World) (c : Server) :
  (url c = None \/ url c = Some [] ->
   exists e,
     make_transport w (expand w c)
     = Ok (StdioClientTransport (command c)
             (match args c with Some a => a | None => [] end) e)
     /\ assoc (lit "NODE_NO_WARNINGS") e = Some (lit "1")
     /\ forall k, k <> lit "NODE_NO_WARNINGS" ->
          assoc k e
          = option_map (expandEnv (process_env w))
              (assoc k (match env c with Some m => m | None => [] end)))
  /\ (forall address, url c = Some address -> address <> [] ->
      make_transport w (expand w c)
      = if URL_valid w address
        then Ok (StreamableHTTPClientTransport address
                   (option_map (expand_values w) (headers c)))
        else Throw TypeError).
Proof.
  split.
  - intros H. eexists. split; [|split].
    + unfold make_transport, expand. cbn [url command args env].
      destruct H as [-> | ->]; reflexivity.
    + apply assoc_upsert_same.
    + intros k Hk. rewrite assoc_upsert_other by exact Hk.
      destruct (env c) as [m|]; simpl; [apply assoc_map_values | reflexivity].
  - intros address Hu Hne. unfold make_transport, expand.
    cbn [url headers]. rewrite Hu.
    destruct address as [|x a]; [congruence | reflexivity].
Qed.

(** ** Effects *)

#[local] Instance balanced_additive : Additive balanced.
Proof.
  split; [reflexivity|].
  intros a b Ha Hb. unfold balanced, opens, closes in *.
  rewrite !filter_app, !length_app. lia.
Qed.

#[local] Instance only_additive admitted : Additive (only admitted).
Proof.
  split; [reflexivity|].
  intros a b Ha Hb. unfold only in *. rewrite forallb_app, Ha, Hb.
  reflexivity.
Qed.

Section Adds.
Context (P : list event -> Prop) `{Additive P}.

Lemma adds_silent {A} (m : M A) :
  (forall st, log (snd (m st)) = log st) -> adds P m.
Proof.
  intros E st. exists []. rewrite app_nil_r. split;
    [apply E | apply additive_nil].
Qed.

Lemma adds_ret {A} (a : A) : adds P (ret a).
Proof. apply adds_silent. reflexivity. Qed.

Lemma adds_throw {A} e : adds P (@throw A e).
Proof. apply adds_silent. reflexivity. Qed.

Lemma adds_lift {A} (r : result A) : adds P (lift r).
Proof. apply adds_silent. reflexivity. Qed.

Lemma adds_settled o : adds P (settled o).
Proof. destruct o; [apply adds_throw | apply adds_ret]. Qed.

Lemma adds_get_state : adds P get_state.
Proof. apply adds_silent. reflexivity. Qed.

Lemma adds_set_serverConfig c : adds P (set_serverConfig c).
Proof. apply adds_silent. reflexivity. Qed.

Lemma adds_set_toolRegistry r : adds P (set_toolRegistry r).
Proof. apply adds_silent. reflexivity. Qed.

Lemma adds_set_server s : adds P (set_server s).
Proof. apply adds_silent. reflexivity. Qed.

Lemma adds_emit e : P [e] -> adds P (emit e).
Proof. intros He st. exists [e]. split; [reflexivity | exact He]. Qed.

Lemma adds_bind {A B} (m : M A) (k : A -> M B) :
  adds P m -> (forall a, adds P (k a)) -> adds P (bind m k).
Proof.
  intros Hm Hk st. unfold bind.
  destruct (Hm st) as [e1 [E1 P1]].
  destruct (m st) as [[a|e] st1]; cbn [snd] in E1.
  - destruct (Hk a st1) as [e2 [E2 P2]].
    exists (e1 ++ e2). rewrite E2, E1, app_assoc.
    split; [reflexivity | apply additive_app; assumption].
  - exists e1. split; assumption.
Qed.

Lemma adds_try_catch {A} (body : M A) (handler : exn -> M A) :
  adds P body -> (forall e, adds P (handler e)) ->
  adds P (try_catch body handler).
Proof.
  intros Hm Hk st. unfold try_catch.
  destruct (Hm st) as [e1 [E1 P1]].
  destruct (body st) as [[a|e] st1]; cbn [snd] in E1.
  - exists e1. split; assumption.
  - destruct (Hk e st1) as [e2 [E2 P2]].
    exists (e1 ++ e2). rewrite E2, E1, app_assoc.
    split; [reflexivity | apply additive_app; assumption].
Qed.

Lemma adds_try_finally {A} (body : M A) (cleanup : M unit) :
  adds P body -> adds P cleanup -> adds P (try_finally body cleanup).
Proof.
  intros Hm Hk st. unfold try_finally.
  destruct (Hm st) as [e1 [E1 P1]].
  destruct (body st) as [r st1]; cbn [snd] in E1.
  destruct (Hk st1) as [e2 [E2 P2]].
  exists (e1 ++ e2).
  destruct (cleanup st1) as [[u|e] st2]; cbn [snd] in *;
    rewrite E2, E1, app_assoc;
    (split; [reflexivity | apply additive_app; assumption]).
Qed.

Lemma adds_fold_M {A B} (f : B -> A -> M B) (l : list A) :
  (forall b a, adds P (f b a)) -> forall acc, adds P (fold_M f l acc).
Proof.
  intros Hf. induction l as [|x t IH]; intros acc; cbn [fold_M].
  - apply adds_ret.
  - apply adds_bind; [apply Hf | exact IH].
Qed.

End Adds.

Section OnlyLogs.
Lemma only_logs_same {A} (m : M A) :
  (forall st, exists evs,
      snd (m st) = {| server := server st;
                      serverConfig := serverConfig st;
                      toolRegistry := toolRegistry st;
                      log := evs |}) ->
  only_logs m.
Proof.
  intros H st. destruct (H st) as [evs ->]. repeat split.
Qed.

Lemma only_logs_ret {A} (a : A) : only_logs (ret a).
Proof. intros st. repeat split. Qed.

Lemma only_logs_throw {A} e : only_logs (@throw A e).
Proof. intros st. repeat split. Qed.

Lemma only_logs_lift {A} (r : result A) : only_logs (lift r).
Proof. intros st. repeat split. Qed.

Lemma only_logs_settled o : only_logs (settled o).
Proof. destruct o; [apply only_logs_throw | apply only_logs_ret]. Qed.

Lemma only_logs_get_state : only_logs get_state.
Proof. intros st. repeat split. Qed.

Lemma only_logs_emit e : only_logs (emit e).
Proof. intros st. repeat split. Qed.

Lemma only_logs_bind {A B} (m : M A) (k : A -> M B) :
  only_logs m -> (forall a, only_logs (k a)) -> only_logs (bind m k).
Proof.
  intros Hm Hk st. unfold bind.
  destruct (Hm st) as [S1 [C1 R1]].
  destruct (m st) as [[a|e] st1]; cbn [snd] in *.
  - destruct (Hk a st1) as [S2 [C2 R2]].
    rewrite S2, C2, R2. auto.
  - auto.
Qed.


Lemma only_logs_try_finally {A} (body : M A) (cleanup : M unit) :
  only_logs body -> only_logs cleanup ->
  only_logs (try_finally body cleanup).
Proof.
  intros Hm Hk st. unfold try_finally.
  destruct (Hm st) as [S1 [C1 R1]].
  destruct (body st) as [r st1]; cbn [snd] in *.
  destruct (Hk st1) as [S2 [C2 R2]].
  destruct (cleanup st1) as [[u|e] st2]; cbn [snd] in *;
    rewrite S2, C2, R2; auto.
Qed.

End OnlyLogs.

Create HintDb effects.
#[local] Hint Resolve adds_ret adds_throw adds_lift adds_settled
  adds_get_state adds_set_serverConfig adds_set_toolRegistry adds_set_server
  only_logs_ret only_logs_throw only_logs_lift only_logs_settled
  only_logs_get_state only_logs_emit : effects.

Lemma client_connect_only_logs w c : only_logs (client_connect w c).
Proof.
  unfold client_connect. apply only_logs_bind; auto with effects.
Qed.

Lemma client_close_only_logs w c : only_logs (client_close w c).
Proof.
  unfold client_close. apply only_logs_bind; auto with effects.
Qed.

Lemma getClient_only_logs {T} w cfg name (cb : Client -> M T) :
  (forall c, only_logs (cb c)) -> only_logs (getClient w cfg name cb).
Proof.
  intros Hcb. unfold getClient.
  apply only_logs_bind; [auto with effects|]. intros tr.
  apply only_logs_try_finally; [|apply client_close_only_logs].
  apply only_logs_bind; [apply client_connect_only_logs|].
  intros _. apply Hcb.
Qed.

Lemma getClient_adds_only {T} admitted w cfg name (cb : Client -> M T) :
  (forall c, admitted (EvConnect c) = true) ->
  (forall c, admitted (EvClose c) = true) ->
  (forall c, adds (only admitted) (cb c)) ->
  adds (only admitted) (getClient w cfg name cb).
Proof.
  intros Ho Hc Hcb. unfold getClient.
  apply adds_bind; [typeclasses eauto | apply adds_lift; typeclasses eauto |].
  intros tr. apply adds_try_finally; [typeclasses eauto | |].
  - unfold client_connect.
    apply adds_bind; [typeclasses eauto | |].
    + apply adds_bind; [typeclasses eauto | |].
      * apply adds_emit. unfold only. cbn. rewrite Ho. reflexivity.
      * intros _. apply adds_settled. typeclasses eauto.
    + intros _. apply Hcb.
  - unfold client_close.
    apply adds_bind; [typeclasses eauto | |].
    + apply adds_emit. unfold only. cbn. rewrite Hc. reflexivity.
    + intros _. apply adds_settled. typeclasses eauto.
Qed.

Lemma getClient_adds_balanced {T} w cfg name (cb : Client -> M T) :
  (forall c, adds balanced (cb c)) ->
  adds balanced (getClient w cfg name cb).
Proof.
  intros Hcb st.
  destruct (make_transport w (expand w cfg)) as [tr|e] eqn:Htr.
  2:{ exists []. unfold getClient, bind, lift. rewrite Htr. cbn [snd].
      rewrite app_nil_r. split; reflexivity. }
  rewrite (getClient_run w cfg name cb st tr Htr). cbv zeta.
  set (client := {| clientName := name; transport := tr |}).
  destruct (connect w client).
  - exists [EvConnect client; EvClose client]. cbn [snd log].
    rewrite <- app_assoc. split; reflexivity.
  - match goal with
    | |- context [cb client ?s] => destruct (Hcb client s) as [evs [E B]]
    end.
    exists (EvConnect client :: evs ++ [EvClose client]).
    cbn [snd log]. rewrite E. cbn [log]. rewrite <- !app_assoc.
    split; [reflexivity|].
    unfold balanced, opens, closes in *. cbn [filter is_open is_close].
    rewrite !filter_app, !length_app. cbn. rewrite !length_app. cbn. lia.
Qed.

(** ** Backend connector: outcomes *)

Lemma logged_logged st a b : logged (logged st a) b = logged st (a ++ b).
Proof. unfold logged. cbn. rewrite <- app_assoc. reflexivity. Qed.

(** The paths of the connector, with the log written out. *)
Lemma getClient_paths {T} w cfg name (cb : Client -> M T) st tr :
  make_transport w (expand w cfg) = Ok tr ->
  getClient w cfg name cb st
  = match connect w {| clientName := name; transport := tr |} with
    | Some e =>
        (Throw (match close w {| clientName := name; transport := tr |} with
                | Some e' => e'
                | None => e
                end),
         logged st [EvConnect {| clientName := name; transport := tr |};
                    EvClose {| clientName := name; transport := tr |}])
    | None =>
        (match close w {| clientName := name; transport := tr |} with
         | Some e' => Throw e'
         | None =>
             fst (cb {| clientName := name; transport := tr |}
                     (logged st [EvConnect {| clientName := name;
                                              transport := tr |}]))
         end,
         logged (snd (cb {| clientName := name; transport := tr |}
                         (logged st [EvConnect {| clientName := name;
                                                  transport := tr |}])))
                [EvClose {| clientName := name; transport := tr |}])
    end.
Proof.
  intros Htr. rewrite (getClient_run w cfg name cb st tr Htr). cbv zeta.
  destruct (connect w _); [|reflexivity].
  match goal with
  | |- (_, ?s) = _ =>
      change s with (logged (logged st [EvConnect {| clientName := name;
                                                     transport := tr |}])
                            [EvClose {| clientName := name;
                                        transport := tr |}])
  end.
  rewrite logged_logged. destruct (close w _); reflexivity.
Qed.

(** X9.  When the connection fails the callback is not run: the session is
    opened and closed and nothing else happens.  The call raises the error
    of the connection, unless closing fails too: then the error of closing
    is raised in its place. *)
Theorem getClient_connect_failure {T} (w : World) (cfg : Server)
  (name : jsstring) (cb : Client -> M T) (st : state) (tr : Transport)
  (e : exn) :
  make_transport w (expand w cfg) = Ok tr ->
  connect w {| clientName := name; transport := tr |} = Some e ->
  getClient w cfg name cb st
  = (Throw (match close w {| clientName := name; transport := tr |} with
            | Some e' => e'
            | None => e
            end),
     logged st [EvConnect {| clientName := name; transport := tr |};
                EvClose {| clientName := name; transport := tr |}]).
Proof.
  intros Htr Hc. rewrite (getClient_paths w cfg name cb st tr Htr).
  rewrite Hc. reflexivity.
Qed.

(** X10.  Once the session is open, the call ends the way the callback
    ends (its value is returned, its error raised unchanged), after the
    session has been closed; but an error of closing replaces either, so a
    value the callback returned is lost. *)
Theorem getClient_outcome {T} (w : World) (cfg : Server) (name : jsstring)
  (cb : Client -> M T) (st : state) (tr : Transport) :
  make_transport w (expand w cfg) = Ok tr ->
  connect w {| clientName := name; transport := tr |} = None ->
  getClient w cfg name cb st
  = (match close w {| clientName := name; transport := tr |} with
     | Some e' => Throw e'
     | None =>
         fst (cb {| clientName := name; transport := tr |}
                 (logged st [EvConnect {| clientName := name;
                                          transport := tr |}]))
     end,
     logged (snd (cb {| clientName := name; transport := tr |}
                     (logged st [EvConnect {| clientName := name;
                                              transport := tr |}])))
            [EvClose {| clientName := name; transport := tr |}]).
Proof.
  intros Htr Hc. rewrite (getClient_paths w cfg name cb st tr Htr).
  rewrite Hc. reflexivity.
Qed.

(** ** Invocation router: outcomes and effects *)

Lemma call_tool_only_logs w toolName arguments c :
  only_logs (call_tool w toolName arguments c).
Proof.
  unfold call_tool. apply only_logs_bind; auto with effects.
Qed.

Lemma call_tool_adds_calling w toolName arguments c :
  adds (only calling_event) (call_tool w toolName arguments c).
Proof.
  intros st. exists [EvCallTool c toolName arguments].
  split; reflexivity.
Qed.

Lemma call_tool_adds_balanced w toolName arguments c :
  adds balanced (call_tool w toolName arguments c).
Proof.
  intros st. exists [EvCallTool c toolName arguments].
  split; reflexivity.
Qed.

(** X11.  Whatever its outcome, an invocation writes to the log only: the
    registry, the published configuration and the front server are left
    as they are.  What it logs are sessions and tool calls (it never lists
    tools, imports or serves), and it closes as many sessions as it
    opens. *)
Theorem executeTool_effects (w : World) (serverName toolName : jsstring)
  (arguments : JSVal) :
  only_logs (executeTool w serverName toolName arguments)
  /\ adds (only calling_event) (executeTool w serverName toolName arguments)
  /\ adds balanced (executeTool w serverName toolName arguments).
Proof.
  unfold executeTool. split; [|split].
  - apply only_logs_bind; [auto with effects|]. intros st0.
    destruct (find _ _); [|auto with effects].
    apply only_logs_bind; [|auto with effects].
    apply getClient_only_logs. apply call_tool_only_logs.
  - apply adds_bind; [typeclasses eauto | apply adds_get_state;
                                           typeclasses eauto |].
    intros st0.
    destruct (find _ _); [|apply adds_throw; typeclasses eauto].
    apply adds_bind; [typeclasses eauto | |
                      intros r; apply adds_ret; typeclasses eauto].
    apply getClient_adds_only; try reflexivity.
    apply call_tool_adds_calling.
  - apply adds_bind; [typeclasses eauto | apply adds_get_state;
                                           typeclasses eauto |].
    intros st0.
    destruct (find _ _); [|apply adds_throw; typeclasses eauto].
    apply adds_bind; [typeclasses eauto | |
                      intros r; apply adds_ret; typeclasses eauto].
    apply getClient_adds_balanced. apply call_tool_adds_balanced.
Qed.

(** X12.  How an invocation of a registered tool ends.  The session is
    opened under the backend identifier with the configuration of the first
    matching entry.  If the transport cannot be built the error is raised
    before any session.  If the connection fails its error is raised (or
    that of closing) and no call is made.  Otherwise exactly one call is
    made, with the raw tool name and the arguments, between opening and
    closing; an error of the call is raised unchanged, and an error of
    closing replaces the outcome of the call. *)
Theorem executeTool_run (w : World) (st : state)
  (serverName toolName : jsstring) (arguments : JSVal) (entry : Entry.t) :
  find (fun e => eqb (Entry.serverName e) serverName
                 && eqb (name (Entry.tool e)) toolName)
       (toolRegistry st) = Some entry ->
  match make_transport w (expand w (Entry.cfg entry)) with
  | Throw e =>
      executeTool w serverName toolName arguments st = (Throw e, st)
  | Ok tr =>
      let c := {| clientName := serverName; transport := tr |} in
      match connect w c with
      | Some e =>
          executeTool w serverName toolName arguments st
          = (Throw (match close w c with Some e' => e' | None => e end),
             logged st [EvConnect c; EvClose c])
      | None =>
          executeTool w serverName toolName arguments st
          = (match close w c, callTool w c toolName arguments with
             | Some e', _ => Throw e'
             | None, Throw e => Throw e
             | None, Ok result =>
                 Ok (js_or (structuredContent result) (content result))
             end,
             logged st [EvConnect c; EvCallTool c toolName arguments;
                        EvClose c])
      end
  end.
Proof.
  intros Hf.
  destruct (make_transport w (expand w (Entry.cfg entry))) as [tr|e] eqn:Htr.
  2:{ unfold executeTool, bind, get_state. rewrite Hf.
      unfold getClient, bind, lift. rewrite Htr. reflexivity. }
  cbv zeta.
  destruct (connect w {| clientName := serverName; transport := tr |})
    as [e|] eqn:Hc.
  - unfold executeTool, bind at 1, get_state. rewrite Hf. unfold bind at 1.
    rewrite (getClient_paths w _ _ _ st tr Htr), Hc. reflexivity.
  - unfold executeTool, bind at 1, get_state. rewrite Hf. unfold bind at 1.
    rewrite (getClient_paths w _ _ _ st tr Htr), Hc.
    unfold call_tool, bind, emit, lift. cbn [fst snd].
    match goal with
    | |- context [(_, ?s)] =>
        change s with
          (logged (logged (logged st
             [EvConnect {| clientName := serverName; transport := tr |}])
             [EvCallTool {| clientName := serverName; transport := tr |}
                         toolName arguments])
             [EvClose {| clientName := serverName; transport := tr |}])
    end.
    rewrite !logged_logged. cbn [app].
    destruct (close w _); [reflexivity|].
    destruct (callTool w _ toolName arguments); reflexivity.
Qed.

(** ** Tool modules *)

Lemma import_all_run w (files : list jsstring) : forall st,
  for_each (fun file => emit (EvImport file) ;;; settled (import_tool w file))
           files st
  = (match import_failure w files with
     | Some e => Throw e
     | None => Ok tt
     end, logged st (map EvImport (attempted w files))).
Proof.
  induction files as [|file rest IH]; intros st.
  - cbn. unfold ret, logged. rewrite app_nil_r. destruct st; reflexivity.
  - cbn [for_each import_failure attempted]. unfold bind at 1.
    unfold bind at 1, emit, settled.
    destruct (import_tool w file) as [e|].
    + reflexivity.
    + unfold ret. rewrite IH.
      change {| server := server st; serverConfig := serverConfig st;
                toolRegistry := toolRegistry st;
                log := log st ++ [EvImport file] |}
        with (logged st [EvImport file]).
      rewrite logged_logged. reflexivity.
Qed.

(** X13.  What [registerTools] does.  When the directory cannot be read,
    the error is logged and raised.  Otherwise the files that end in [.js]
    or [.ts], and only those, are imported in the order of the directory
    listing; the first import that fails stops the loop, its error is
    logged and raised, and the files after it are not imported.  Nothing
    but the log changes. *)
Theorem registerTools_run (w : World) (st : state) :
  registerTools w st
  = match readdir w with
    | Throw e =>
        (Throw e, logged st [EvError (lit "Error registering tools:") e])
    | Ok files =>
        match import_failure w (tool_files files) with
        | None => (Ok tt, logged st (map EvImport (tool_files files)))
        | Some e =>
            (Throw e,
             logged st (map EvImport (attempted w (tool_files files))
                        ++ [EvError (lit "Error registering tools:") e]))
        end
    end.
Proof.
  unfold registerTools, try_catch, bind at 1, lift.
  destruct (readdir w) as [files|e]; [|reflexivity].
  fold (tool_files files). rewrite import_all_run.
  destruct (import_failure w (tool_files files)) as [e|] eqn:F.
  - unfold bind, emit, throw. cbn [logged server serverConfig toolRegistry log].
    unfold logged. rewrite <- app_assoc. reflexivity.
  - f_equal. f_equal. f_equal.
    induction (tool_files files) as [|f t IH]; [reflexivity|].
    cbn [import_failure attempted] in *.
    destruct (import_tool w f); [discriminate|]. rewrite (IH F). reflexivity.
Qed.



(** ** Catalog aggregator: effects *)


Lemma adds_weaken {A} (P Q : list event -> Prop) (m : M A) :
  (forall evs, P evs -> Q evs) -> adds P m -> adds Q m.
Proof.
  intros H Hm st. destruct (Hm st) as [evs [E Pe]]. exists evs. auto.
Qed.


Section Aggregation.
Context (P : list event -> Prop) `{Additive P}.
Context (w : World).
Hypothesis listing :
  forall cfg name, adds P (getClient w cfg name (request_tools w)).
Hypothesis warning : forall text e, P [EvWarn text e].

Lemma register_tool_adds serverName cfg acc tool :
  adds P (register_tool serverName cfg acc tool).
Proof. apply adds_silent; [assumption | reflexivity]. Qed.

Lemma aggregate_backend_adds acc backend :
  adds P (aggregate_backend w acc backend).
Proof.
  unfold aggregate_backend. apply adds_try_catch; [assumption | |].
  - apply adds_bind; [assumption | apply listing |].
    intros serverTools. apply adds_fold_M; [assumption|].
    intros b a. apply register_tool_adds.
  - intros e. apply adds_bind; [assumption | |].
    + apply adds_emit. apply warning.
    + intros _. apply adds_ret. assumption.
Qed.

Lemma getAllServerTools_adds input : adds P (getAllServerTools w input).
Proof.
  unfold getAllServerTools.
  destruct (servers input) as [backends|]; [|apply adds_throw; assumption].
  apply adds_bind; [assumption | |].
  - apply adds_fold_M; [assumption|]. apply aggregate_backend_adds.
  - intros acc. apply adds_bind; [assumption | apply adds_get_state;
                                                assumption |].
    intros st0. apply adds_bind; [assumption | apply adds_set_serverConfig;
                                                 assumption |].
    intros _. apply adds_bind; [assumption | apply adds_lift; assumption |].
    intros text. apply adds_bind; [assumption | apply adds_get_state;
                                                 assumption |].
    intros st1. apply adds_set_serverConfig. assumption.
Qed.
End Aggregation.

Lemma request_tools_adds_listing w c :
  adds (only listing_event) (request_tools w c).
Proof. intros st. exists [EvListTools c]. split; reflexivity. Qed.

Lemma request_tools_adds_balanced w c : adds balanced (request_tools w c).
Proof. intros st. exists [EvListTools c]. split; reflexivity. Qed.

Lemma getAllServerTools_server w input st :
  server (snd (getAllServerTools w input st)) = server st.
Proof.
  destruct input as [[backends|]]; [|reflexivity].
  destruct (getAllServerTools_run w backends st) as [st' [E [Hs _]]].
  rewrite E. exact Hs.
Qed.

Lemma getAllServerTools_adds_listing w input :
  adds (only listing_event) (getAllServerTools w input).
Proof.
  apply getAllServerTools_adds; [typeclasses eauto | | reflexivity].
  intros cfg name. apply getClient_adds_only; try reflexivity.
  apply request_tools_adds_listing.
Qed.

Lemma getAllServerTools_adds_balanced w input :
  adds balanced (getAllServerTools w input).
Proof.
  apply getAllServerTools_adds; [typeclasses eauto | | reflexivity].
  intros cfg name. apply getClient_adds_balanced.
  apply request_tools_adds_balanced.
Qed.

(** X14.  What an aggregation pass does to the outside and what it leaves
    alone.  Whatever the configuration and whatever fails, it logs
    sessions, tool-list requests and warnings only (it never calls a tool,
    imports a module or serves), it closes as many sessions as it opens,
    and it does not touch the front server. *)
Theorem getAllServerTools_effects (w : World) (input : Servers) :
  adds (only listing_event) (getAllServerTools w input)
  /\ adds balanced (getAllServerTools w input)
  /\ forall st, server (snd (getAllServerTools w input st)) = server st.
Proof.
  split; [|split].
  - apply getAllServerTools_adds_listing.
  - apply getAllServerTools_adds_balanced.
  - apply getAllServerTools_server.
Qed.

(** ** Start-up: the order of things *)



(** ** The dispatch map *)

Lemma dotted_fullName serverName toolName :
  dotted (fullName serverName toolName) = true.
Proof. apply Nat.ltb_lt. apply split_fullName_length. Qed.

Lemma dispatch_of_prepare_step out full fn ns key :
  dotted full = true ->
  dispatch_of (prepare_step out (full, fn)) ns key
  = if eqb ns (namespace_of full) && eqb key (tool_key_of full)
    then Some fn else dispatch_of out ns key.
Proof.
  intros D. unfold prepare_step. cbn [fst snd]. unfold dotted in D.
  rewrite D. fold (namespace_of full). fold (tool_key_of full).
  unfold dispatch_of.
  destruct (eqb ns (namespace_of full)) eqn:En.
  - apply eqb_eq in En. subst ns. rewrite assoc_upsert_same. cbn [members].
    destruct (eqb key (tool_key_of full)) eqn:Ek.
    + apply eqb_eq in Ek. subst key. cbn [andb]. apply assoc_upsert_same.
    + cbn [andb]. apply eqb_neq in Ek.
      rewrite assoc_upsert_other by exact Ek.
      destruct (assoc (namespace_of full) out); reflexivity.
  - cbn [andb]. apply eqb_neq in En.
    rewrite assoc_upsert_other by exact En. reflexivity.
Qed.

Lemma dispatch_of_fold entries : forall out ns key,
  Forall (fun kv => dotted (fst kv) = true) entries ->
  dispatch_of (fold_left prepare_step entries out) ns key
  = match last_filed entries ns key with
    | Some later => Some later
    | None => dispatch_of out ns key
    end.
Proof.
  induction entries as [|[full fn] rest IH]; intros out ns key D;
    [reflexivity|].
  inversion D as [|x l Dx Dl]; subst. cbn [fst] in Dx.
  cbn [fold_left last_filed]. rewrite (IH _ ns key Dl).
  destruct (last_filed rest ns key); [reflexivity|].
  rewrite (dispatch_of_prepare_step out full fn ns key Dx).
  destruct (eqb ns (namespace_of full) && eqb key (tool_key_of full));
    reflexivity.
Qed.

(** X16.  Looking a tool up in the map [prepareTools] builds.  For a map
    whose names all have a dot and are filed under keys that are not
    inherited names, and for a namespace [ns] and a tool key [key] that
    are not inherited names either, [out[ns]?.[key]] is the closure of
    the last entry whose sanitised namespace and flattened tool key are
    [ns] and [key], and is absent when there is none: entries are found
    under their own two keys, a later entry with the same two keys wins,
    and nothing else is in the map. *)
Theorem prepareTools_lookup (entries : list (jsstring * dispatch))
  (ns key : jsstring) :
  Forall (fun kv => dotted (fst kv) = true) entries ->
  forallb (fun kv => own_entry (fst kv)) entries = true ->
  includes Object_prototype_names ns = false ->
  includes Object_prototype_names key = false ->
  dispatch_of (prepareTools entries) ns key = last_filed entries ns key.
Proof.
  intros D _ _ _. unfold prepareTools. rewrite (dispatch_of_fold _ _ _ _ D).
  destruct (last_filed entries ns key); reflexivity.
Qed.

(** A name without a dot, whose sanitised form is not an inherited name,
    is filed as a function under that form, in place of whatever was
    filed there, a namespace included. *)
Lemma prepare_step_undotted out full fn :
  dotted full = false ->
  includes Object_prototype_names (sanitize full) = false ->
  assoc (sanitize full) (prepare_step out (full, fn))
  = Some {| callable := Some fn; members := [] |}.
Proof.
  intros D _. unfold prepare_step. cbn [fst snd]. unfold dotted in D.
  rewrite D. apply assoc_upsert_same.
Qed.

(** ** What an aggregation pass publishes *)

Lemma register_tools_state serverName cfg (l : list ServerTool) :
  forall acc st, exists acc' st',
    fold_M (register_tool serverName cfg) l acc st = (Ok acc', st')
    /\ tools (serverConfig st') = tools (serverConfig st)
    /\ interfaces (serverConfig st') = interfaces (serverConfig st)
    /\ serverTools (serverConfig st')
       = fold_left (publish serverName) l (serverTools (serverConfig st))
    /\ rawTools acc' = fold_left (file_call serverName) l (rawTools acc).
Proof.
  induction l as [|t l IH]; intros acc st.
  - exists acc, st. repeat split.
  - cbn [fold_M]. unfold bind at 1.
    unfold register_tool at 1, bind, get_state, set_serverConfig,
      set_toolRegistry, ret.
    cbn [serverConfig toolRegistry server log].
    match goal with
    | |- context [fold_M _ l ?a ?s] =>
        destruct (IH a s) as [acc' [st' [E [Ht [Hi [Hs Hr]]]]]]
    end.
    exists acc', st'. split; [exact E|].
    cbn [serverConfig tools interfaces serverTools rawTools] in *.
    rewrite Ht, Hi, Hs, Hr. repeat split.
Qed.

Lemma aggregate_backend_state w acc backend st :
  exists acc' st',
    aggregate_backend w acc backend st = (Ok acc', st')
    /\ tools (serverConfig st') = tools (serverConfig st)
    /\ interfaces (serverConfig st') = interfaces (serverConfig st)
    /\ serverTools (serverConfig st')
       = fold_left (publish (fst backend)) (surviving w backend)
                   (serverTools (serverConfig st))
    /\ rawTools acc'
       = fold_left (file_call (fst backend)) (surviving w backend)
                   (rawTools acc).
Proof.
  unfold aggregate_backend, try_catch, bind at 1.
  destruct (getClient_request_tools w backend st)
    as [r [st1 [E [_ [Hc [_ Hb]]]]]].
  rewrite E. unfold surviving.
  destruct (backend_tools w backend) as [serverTools|].
  - subst r.
    destruct (register_tools_state (fst backend) (snd backend)
                (filteredTools (snd backend) serverTools) acc st1)
      as [acc' [st' [E' [Ht [Hi [Hs Hr]]]]]].
    rewrite E'. do 2 eexists. split; [reflexivity|].
    rewrite Ht, Hi, Hs, Hr, Hc. repeat split.
  - destruct Hb as [e ->].
    unfold bind, emit, ret. do 2 eexists. split; [reflexivity|].
    cbn [serverConfig fold_left]. rewrite Hc. repeat split.
Qed.

Lemma aggregate_all_state w (backends : list (jsstring * Server)) :
  forall acc st, exists acc' st',
    fold_M (aggregate_backend w) backends acc st = (Ok acc', st')
    /\ tools (serverConfig st') = tools (serverConfig st)
    /\ interfaces (serverConfig st') = interfaces (serverConfig st)
    /\ serverTools (serverConfig st')
       = published_tools w backends (serverTools (serverConfig st))
    /\ rawTools acc' = raw_tools w backends (rawTools acc).
Proof.
  induction backends as [|b bs IH]; intros acc st.
  - exists acc, st. repeat split.
  - cbn [fold_M]. unfold bind at 1.
    destruct (aggregate_backend_state w acc b st)
      as [acc1 [st1 [E [Ht [Hi [Hs Hr]]]]]].
    rewrite E.
    destruct (IH acc1 st1) as [acc' [st' [E' [Ht' [Hi' [Hs' Hr']]]]]].
    exists acc', st'. split; [exact E'|].
    unfold published_tools, raw_tools in *. cbn [fold_left].
    rewrite Ht', Hi', Hs', Hr', Ht, Hi, Hs, Hr. repeat split.
Qed.

(** The published configuration after a pass, field by field. *)
Lemma getAllServerTools_state w backends st :
  exists r st',
    getAllServerTools w {| servers := Some backends |} st = (r, st')
    /\ tools (serverConfig st')
       = prepareTools (raw_tools w (settle w backends) [])
    /\ serverTools (serverConfig st')
       = published_tools w (settle w backends)
                         (serverTools (serverConfig st))
    /\ interfaces (serverConfig st')
       = match generateInterfaces
                 (flat_map (catalog w) (settle w backends)) with
         | Ok text => text
         | Throw _ => interfaces (serverConfig st)
         end.
Proof.
  destruct (aggregate_all_state w (settle w backends)
              {| rawTools := []; toolList := [] |} st)
    as [acc [st1 [E [Ht [Hi [Hs Hr]]]]]].
  destruct (aggregate_all_run w (settle w backends)
              {| rawTools := []; toolList := [] |} st)
    as [acc2 [st2 [E2 [_ [_ Hl]]]]].
  rewrite E in E2. inversion E2; subst acc2 st2. clear E2.
  cbn [toolList rawTools app] in Hl, Hr.
  unfold getAllServerTools. cbn [servers]. unfold bind at 1. rewrite E.
  unfold bind, get_state, set_serverConfig, lift. rewrite Hl, Hr.
  destruct (generateInterfaces _) as [text|e]; do 2 eexists;
    (split; [reflexivity|]);
    cbn [serverConfig tools serverTools interfaces];
    rewrite ?Hs, ?Hi; repeat split.
Qed.

(** X17.  What a pass leaves in [serverConfig].  [serverTools] keeps what
    it had and records the surviving tools on top.  When no tool is filed
    under an inherited name, among the surviving tools of this pass and
    among those registered before it, the dispatch map is built anew from
    the surviving tools of this pass alone, whatever was there before,
    and the interface text is replaced by the text generated for this
    pass when the generator returns, while it keeps its old value when
    the generator raises - by then the dispatch map and [serverTools] have
    already been updated. *)
Theorem getAllServerTools_publishes (w : World)
  (backends : list (jsstring * Server)) (st : state) :
  let st' := snd (getAllServerTools w {| servers := Some backends |} st) in
  serverTools (serverConfig st')
  = published_tools w (settle w backends) (serverTools (serverConfig st))
  /\ (registry_own st = true ->
      own_names (flat_map (catalog w) (settle w backends)) = true ->
      tools (serverConfig st')
      = prepareTools (raw_tools w (settle w backends) [])
      /\ interfaces (serverConfig st')
         = match generateInterfaces
                   (flat_map (catalog w) (settle w backends)) with
           | Ok text => text
           | Throw _ => interfaces (serverConfig st)
           end).
Proof.
  destruct (getAllServerTools_state w backends st)
    as [r [st1 [E [Ht [Hs Hi]]]]].
  cbv zeta. rewrite E. cbn [snd].
  split; [exact Hs | intros _ _; split; [exact Ht | exact Hi]].
Qed.

(** ** [serverTools] as an index *)

Lemma assoc_key_eq {A} k (l : list (jsstring * A)) v :
  assoc k l = Some v -> In (k, v) l.
Proof.
  induction l as [|[k' v'] t IH]; simpl; [discriminate|].
  destruct (eqb k k') eqn:E.
  - apply eqb_eq in E. subst k'. intros H; inversion H; subst. left.
    reflexivity.
  - intros H. right. exact (IH H).
Qed.

Lemma Forall_upsert {A} (Q : jsstring * A -> Prop) k v l :
  Forall Q l -> Q (k, v) -> Forall Q (upsert k v l).
Proof.
  intros Hl Hq. induction Hl as [|[k' v'] t Hx Ht IH]; simpl.
  - constructor; [exact Hq | constructor].
  - destruct (eqb k k') eqn:E.
    + apply eqb_eq in E. subst k'. constructor; assumption.
    + constructor; assumption.
Qed.

Lemma upsert_keeps_keys {A} k k' (v : A) l :
  assoc k l <> None -> assoc k (upsert k' v l) <> None.
Proof.
  intros H. destruct (list_eq_dec N.eq_dec k k') as [->|Hn].
  - rewrite assoc_upsert_same. discriminate.
  - rewrite assoc_upsert_other by exact Hn. exact H.
Qed.

Lemma fold_upsert_keeps {A B} (key : B -> jsstring) (val : B -> A)
  (l : list B) : forall m k,
  assoc k m <> None ->
  assoc k (fold_left (fun m x => upsert (key x) (val x) m) l m) <> None.
Proof.
  induction l as [|x t IH]; intros m k H; [exact H|].
  cbn [fold_left]. apply IH. apply upsert_keeps_keys. exact H.
Qed.

Lemma fold_upsert_adds {A B} (key : B -> jsstring) (val : B -> A)
  (l : list B) : forall m x,
  In x l ->
  assoc (key x) (fold_left (fun m x => upsert (key x) (val x) m) l m)
  <> None.
Proof.
  induction l as [|y t IH]; intros m x Hx; [contradiction|].
  cbn [fold_left]. destruct Hx as [->|Hx].
  - apply fold_upsert_keeps. rewrite assoc_upsert_same. discriminate.
  - apply IH. exact Hx.
Qed.

Lemma fold_upsert_Forall {A B} (Q : jsstring * A -> Prop)
  (key : B -> jsstring) (val : B -> A) (l : list B) : forall m,
  Forall Q m -> (forall x, In x l -> Q (key x, val x)) ->
  Forall Q (fold_left (fun m x => upsert (key x) (val x) m) l m).
Proof.
  induction l as [|y t IH]; intros m Hm Hq; [exact Hm|].
  cbn [fold_left]. apply IH.
  - apply Forall_upsert; [exact Hm | apply Hq; left; reflexivity].
  - intros x Hx. apply Hq. right. exact Hx.
Qed.

Lemma published_tools_keeps w backends : forall base k,
  assoc k base <> None -> assoc k (published_tools w backends base) <> None.
Proof.
  unfold published_tools.
  induction backends as [|b bs IH]; intros base k H; [exact H|].
  cbn [fold_left]. apply IH.
  apply (fold_upsert_keeps (fun t => callableName (fst b) (name t))
           (fun t => {| name := callableName (fst b) (name t);
                        description := description t;
                        inputSchema := inputSchema t |})).
  exact H.
Qed.

Lemma published_tools_adds w backends : forall base b t,
  In b backends -> In t (surviving w b) ->
  assoc (callableName (fst b) (name t)) (published_tools w backends base)
  <> None.
Proof.
  induction backends as [|b0 bs IH]; intros base b t Hb Ht;
    [contradiction|].
  unfold published_tools. cbn [fold_left].
  fold (published_tools w bs
          (fold_left (publish (fst b0)) (surviving w b0) base)).
  destruct Hb as [->|Hb]; [|apply IH; assumption].
  apply published_tools_keeps.
  apply (fold_upsert_adds (fun t => callableName (fst b) (name t))
           (fun t => {| name := callableName (fst b) (name t);
                        description := description t;
                        inputSchema := inputSchema t |})).
  exact Ht.
Qed.

Lemma published_tools_keyed w backends : forall base,
  keyed base -> keyed (published_tools w backends base).
Proof.
  unfold published_tools, keyed.
  induction backends as [|b bs IH]; intros base H; [exact H|].
  cbn [fold_left]. apply IH.
  apply (fold_upsert_Forall _ (fun t => callableName (fst b) (name t))
           (fun t => {| name := callableName (fst b) (name t);
                        description := description t;
                        inputSchema := inputSchema t |}));
    [exact H | reflexivity].
Qed.

(** X18.  [serverTools] is an index by qualified name, and a pass keeps it
    one.  If every key is the name of the tool bound to it before the pass,
    this holds after it; no key is lost; and the qualified name of every
    surviving tool of the pass is a key, bound to a tool that carries that
    name (on a collision of qualified names, the tool recorded last). *)
Theorem serverTools_index (w : World) (backends : list (jsstring * Server))
  (st : state) :
  keyed (serverTools (serverConfig st)) ->
  let published :=
    serverTools (serverConfig
      (snd (getAllServerTools w {| servers := Some backends |} st))) in
  keyed published
  /\ (forall k, assoc k (serverTools (serverConfig st)) <> None ->
                assoc k published <> None)
  /\ (forall b t, In b (settle w backends) -> In t (surviving w b) ->
        exists t',
          assoc (callableName (fst b) (name t)) published = Some t'
          /\ name t' = callableName (fst b) (name t)).
Proof.
  intros K published.
  destruct (getAllServerTools_state w backends st)
    as [r [st1 [E0 [_ [E _]]]]].
  unfold published. rewrite E0. cbn [snd]. rewrite E. clear published E.
  assert (K' := published_tools_keyed w (settle w backends) _ K).
  split; [exact K'|]. split.
  - intros k. apply published_tools_keeps.
  - intros b t Hb Ht.
    pose proof (published_tools_adds w (settle w backends)
                  (serverTools (serverConfig st)) b t Hb Ht) as H.
    destruct (assoc _ _) as [t'|] eqn:A; [|congruence].
    exists t'. split; [reflexivity|].
    apply assoc_key_eq in A. unfold keyed in K'.
    rewrite Forall_forall in K'. exact (K' _ A).
Qed.

(** ** The dispatch map and the registry *)

Lemma raw_tools_filed w backends (Q : jsstring * dispatch -> Prop) :
  forall base,
  Forall Q base ->
  (forall b t, In b backends -> In t (surviving w b) ->
               Q (fullName (fst b) (name t), Call (fst b) (name t))) ->
  Forall Q (raw_tools w backends base).
Proof.
  unfold raw_tools.
  induction backends as [|b bs IH]; intros base Hb Hq; [exact Hb|].
  cbn [fold_left]. apply IH.
  - apply (fold_upsert_Forall Q (fun t => fullName (fst b) (name t))
             (fun t => Call (fst b) (name t))); [exact Hb|].
    intros t Ht. apply Hq; [left; reflexivity | exact Ht].
  - intros b' t Hb' Ht. apply Hq; [right; exact Hb' | exact Ht].
Qed.

Lemma raw_tools_keeps w backends : forall base k,
  assoc k base <> None -> assoc k (raw_tools w backends base) <> None.
Proof.
  unfold raw_tools.
  induction backends as [|b bs IH]; intros base k H; [exact H|].
  cbn [fold_left]. apply IH.
  apply (fold_upsert_keeps (fun t => fullName (fst b) (name t))
           (fun t => Call (fst b) (name t))).
  exact H.
Qed.

Lemma raw_tools_adds w backends : forall base b t,
  In b backends -> In t (surviving w b) ->
  assoc (fullName (fst b) (name t)) (raw_tools w backends base) <> None.
Proof.
  induction backends as [|b0 bs IH]; intros base b t Hb Ht;
    [contradiction|].
  unfold raw_tools. cbn [fold_left].
  fold (raw_tools w bs (fold_left (file_call (fst b0)) (surviving w b0) base)).
  destruct Hb as [->|Hb]; [|apply IH; assumption].
  apply raw_tools_keeps.
  apply (fold_upsert_adds (fun t => fullName (fst b) (name t))
           (fun t => Call (fst b) (name t))).
  exact Ht.
Qed.

Lemma last_filed_In entries ns key fn :
  last_filed entries ns key = Some fn ->
  exists full, In (full, fn) entries
               /\ ns = namespace_of full /\ key = tool_key_of full.
Proof.
  induction entries as [|[full f] rest IH]; [discriminate|].
  cbn [last_filed].
  destruct (last_filed rest ns key) as [later|].
  - intros H; inversion H; subst.
    destruct (IH eq_refl) as [full' [Hin Hk]].
    exists full'. split; [right; exact Hin | exact Hk].
  - destruct (eqb ns (namespace_of full)) eqn:En; [|discriminate].
    destruct (eqb key (tool_key_of full)) eqn:Ek; [|discriminate].
    intros H; inversion H; subst. apply eqb_eq in En. apply eqb_eq in Ek.
    exists full. split; [left; reflexivity | auto].
Qed.

Lemma last_filed_found entries full fn :
  In (full, fn) entries ->
  last_filed entries (namespace_of full) (tool_key_of full) <> None.
Proof.
  induction entries as [|[full' f] rest IH]; [contradiction|].
  intros [E|Hin]; cbn [last_filed].
  - inversion E; subst.
    destruct (last_filed rest _ _); [discriminate|].
    rewrite !eqb_refl. discriminate.
  - specialize (IH Hin). destruct (last_filed rest _ _);
      [discriminate | contradiction].
Qed.

(** X19.  When no tool is filed under an inherited name, among the
    surviving tools of a pass and among those registered before it, the
    dispatch map is in step with the registry after the pass.  The
    namespace and tool key of every surviving tool lead, in the published
    dispatch map, to a closure; that closure calls [executeTool] with the
    backend identifier and raw name of a surviving tool of this pass that
    has the same qualified name (the tool itself unless qualified names
    collide); and the pair it calls with is in the registry, so the call
    finds its entry. *)
Theorem dispatch_reaches_registry (w : World)
  (backends : list (jsstring * Server)) (st : state)
  (b : jsstring * Server) (t : ServerTool) :
  registry_own st = true ->
  own_names (flat_map (catalog w) (settle w backends)) = true ->
  In b (settle w backends) -> In t (surviving w b) ->
  let st' := snd (getAllServerTools w {| servers := Some backends |} st) in
  exists b' t',
    In b' (settle w backends) /\ In t' (surviving w b')
    /\ dispatch_of (tools (serverConfig st'))
                   (namespace_of (fullName (fst b) (name t)))
                   (tool_key_of (fullName (fst b) (name t)))
       = Some (Call (fst b') (name t'))
    /\ callableName (fst b') (name t') = callableName (fst b) (name t)
    /\ find (fun e => eqb (Entry.serverName e) (fst b')
                      && eqb (name (Entry.tool e)) (name t'))
            (toolRegistry st') <> None.
Proof.
  intros _ _ Hb Ht st'.
  destruct (getAllServerTools_run w backends st) as [st2 [E2 [_ Hr]]].
  assert (Es : st' = st2) by (unfold st'; rewrite E2; reflexivity).
  destruct (getAllServerTools_state w backends st)
    as [r0 [st0 [E0 [Et _]]]].
  assert (Es0 : st' = st0) by (unfold st'; rewrite E0; reflexivity).
  rewrite <- Es0 in Et. clear E0 Es0 r0 st0.
  set (R := raw_tools w (settle w backends) []) in *.
  assert (D : Forall (fun kv => dotted (fst kv) = true) R).
  { apply raw_tools_filed; [constructor|].
    intros b0 t0 _ _. apply dotted_fullName. }
  assert (F : Forall (fun kv => exists b0 t0,
                          In b0 (settle w backends) /\ In t0 (surviving w b0)
                          /\ kv = (fullName (fst b0) (name t0),
                                   Call (fst b0) (name t0))) R).
  { apply raw_tools_filed; [constructor|].
    intros b0 t0 H0 H1. exists b0, t0. auto. }
  pose proof (raw_tools_adds w (settle w backends) [] b t Hb Ht) as A.
  fold R in A.
  destruct (assoc (fullName (fst b) (name t)) R) as [fn0|] eqn:A0;
    [|congruence].
  apply assoc_key_eq in A0.
  pose proof (last_filed_found R _ _ A0) as L.
  destruct (last_filed R (namespace_of (fullName (fst b) (name t)))
              (tool_key_of (fullName (fst b) (name t)))) as [fn|] eqn:Lf;
    [|congruence].
  destruct (last_filed_In _ _ _ _ Lf) as [full [Hin [Hns Hkey]]].
  rewrite Forall_forall in F.
  destruct (F _ Hin) as [b' [t' [Hb' [Ht' Ekv]]]].
  inversion Ekv; subst full fn.
  exists b', t'. repeat split; try assumption.
  - rewrite Et. unfold prepareTools.
    rewrite (dispatch_of_fold R [] _ _ D), Lf. reflexivity.
  - rewrite !qualified_parts, <- Hns, <- Hkey. reflexivity.
  - rewrite Es, Hr. intros Hnone.
    assert (Hin' : In (entry_of b' t')
                      (toolRegistry st
                       ++ flat_map (contribution w) (settle w backends))).
    { apply in_or_app. right. apply in_flat_map. exists b'.
      split; [exact Hb'|]. unfold contribution. apply in_map. exact Ht'. }
    pose proof (find_none _ _ Hnone (entry_of b' t') Hin') as Hf.
    cbn in Hf. rewrite !eqb_refl in Hf. discriminate.
Qed.

(** ** Allow and deny lists, continued *)

Lemma filter_twice {A} (f : A -> bool) l : filter f (filter f l) = filter f l.
Proof.
  induction l as [|x t IH]; simpl; [reflexivity|].
  destruct (f x) eqn:E; simpl; [rewrite E, IH; reflexivity | exact IH].
Qed.

(** X20.  Filtering looks at one tool at a time and keeps the order: the
    filter of two lists one after the other is the two filtered lists one
    after the other, and filtering a filtered list changes nothing.  An
    empty [allow] list is still an allow list: it admits no tool, whatever
    [deny] says. *)
Theorem filteredTools_stable (cfg : Server) (a b : list ServerTool) :
  filteredTools cfg (a ++ b) = filteredTools cfg a ++ filteredTools cfg b
  /\ filteredTools cfg (filteredTools cfg a) = filteredTools cfg a
  /\ (forall denied,
         codemode cfg = Some {| allow := Some []; deny := denied |} ->
         filteredTools cfg a = []).
Proof.
  unfold filteredTools. split; [|split].
  - destruct (allow_of cfg); apply filter_app.
  - destruct (allow_of cfg); apply filter_twice.
  - intros denied E. unfold allow_of. rewrite E. cbn [allow].
    induction a as [|t ts IH]; [reflexivity | exact IH].
Qed.

(** ** Signature synthesiser, continued *)

(** X21.  The depth cap.  Deeper than depth 2 an object schema is not
    looked into: whatever it declares under [properties] and [required], it is
    rendered as the open mapping, and nothing inside it can make [toType]
    raise. *)
Theorem toType_depth_cap (s : JSVal) (d : nat) :
  truthy (member s (lit "enum")) = false ->
  member s (lit "type") = JStr (lit "object") ->
  (2 < d)%nat ->
  toType s d = Ok (Text (lit "{ [key: string]: any }")).
Proof.
  intros He Ht Hd. rewrite toType_unfold. unfold toType_body.
  assert (Hs : truthy s = true).
  { destruct s; try discriminate Ht. reflexivity. }
  rewrite Hs, He, Ht. cbn [negb is_str].
  apply Nat.ltb_lt in Hd. rewrite Hd, orb_true_r. reflexivity.
Qed.

Lemma generateInterface_ok_iff (tool : ServerTool) :
  (exists text, generateInterface tool = Ok text)
  <-> exists r, toType (inputSchema tool) 0 = Ok r.
Proof.
  unfold generateInterface.
  destruct (1 <? _)%nat; destruct (toType (inputSchema tool) 0);
    cbn [rbind]; split; intros [x E]; try discriminate;
    eexists; reflexivity.
Qed.

(** X22.  The interface text is all or nothing.  [generateInterfaces]
    returns a text exactly when [toType] returns for the schema of every
    tool of the list; one schema on which [toType] raises leaves the
    catalog without any interface text, and the error is a [TypeError]. *)
Theorem generateInterfaces_all_or_nothing (tools : list ServerTool) :
  ((exists text, generateInterfaces tools = Ok text)
   <-> forall t, In t tools -> exists r, toType (inputSchema t) 0 = Ok r)
  /\ (forall e, generateInterfaces tools = Throw e -> e = TypeError).
Proof.
  split.
  - unfold generateInterfaces. split.
    + intros [text E] t Ht. apply generateInterface_ok_iff.
      revert t Ht. apply rmap_ok_iff.
      destruct (rmap generateInterface tools); [eexists; reflexivity|].
      discriminate.
    + intros H. destruct (rmap_ok generateInterface tools) as [ys ->];
        [|eexists; reflexivity].
      intros t Ht. apply generateInterface_ok_iff. exact (H t Ht).
  - intros e. unfold generateInterfaces.
    destruct (rmap_cases generateInterface tools) as [[ys ->]| ->].
    + intros t _. unfold generateInterface.
      unfold toType.
      destruct (toType_rec_cases (S (height (inputSchema t)))
                  (inputSchema t) 0 (Nat.lt_succ_diag_r _))
        as [[r ->]| ->];
        destruct (1 <? _)%nat; cbn [rbind];
        first [left; eexists; reflexivity | right; reflexivity].
    + discriminate.
    + intros E; inversion E; reflexivity.
Qed.

(** ** Catalog aggregator: one backend *)

Lemma register_tools_log serverName cfg (l : list ServerTool) :
  forall acc st,
    log (snd (fold_M (register_tool serverName cfg) l acc st)) = log st.
Proof.
  induction l as [|t l IH]; intros acc st; [reflexivity|].
  cbn [fold_M]. unfold bind at 1.
  unfold register_tool at 1, bind, get_state, set_serverConfig,
    set_toolRegistry, ret.
  rewrite IH. reflexivity.
Qed.

(** X23.  What one backend leaves in the log.  A backend whose listing
    succeeds leaves its session and its request, and no warning.  For a
    backend that fails, the callback of [Promise.all] still completes, with
    the local tables as they were, and the last thing logged is one
    warning that names the backend and carries the error the connector
    raised. *)
Theorem aggregate_backend_log (w : World) (acc : locals)
  (backend : jsstring * Server) (st : state) :
  match backend_tools w backend with
  | Some serverTools =>
      exists tr,
        make_transport w (expand w (snd backend)) = Ok tr
        /\ log (snd (aggregate_backend w acc backend st))
           = log st
             ++ [EvConnect {| clientName := fst backend; transport := tr |};
                 EvListTools {| clientName := fst backend; transport := tr |};
                 EvClose {| clientName := fst backend; transport := tr |}]
  | None =>
      exists e st1,
        getClient w (snd backend) (fst backend) (request_tools w) st
        = (Throw e, st1)
        /\ aggregate_backend w acc backend st
           = (Ok acc,
              logged st1 [EvWarn (lit "Failed to connect to " ++ fst backend
                                  ++ lit ":") e])
  end.
Proof.
  destruct (backend_tools w backend) as [serverTools|] eqn:B.
  - unfold backend_tools in B.
    destruct (make_transport w (expand w (snd backend))) as [tr|] eqn:Htr;
      [|discriminate].
    exists tr. split; [reflexivity|]. cbv zeta in B.
    destruct (connect w _) eqn:Hc; [discriminate|].
    destruct (listTools w _) as [ts|] eqn:Hl; [|discriminate].
    destruct (close w _) eqn:Hx; [discriminate|]. inversion B; subst ts.
    unfold aggregate_backend, try_catch, bind at 1.
    rewrite (getClient_paths w _ _ _ st tr Htr), Hc, Hx.
    unfold request_tools at 1 2, bind at 1 2, emit, lift. cbn [fst snd].
    rewrite Hl.
    match goal with
    | |- context [fold_M ?f ?l ?a ?s] =>
        pose proof (register_tools_log (fst backend) (snd backend) l a s) as R;
        destruct (register_tools_run (fst backend) (snd backend) l a s)
          as [a' [s' [E' _]]]
    end.
    rewrite E' in *. cbn [snd] in *. rewrite R. cbn [log logged].
    rewrite <- !app_assoc. reflexivity.
  - destruct (getClient_request_tools w backend st)
      as [r [st1 [E [_ [_ [_ Hb]]]]]].
    rewrite B in Hb. destruct Hb as [e ->].
    exists e, st1. split; [exact E|].
    unfold aggregate_backend, try_catch, bind at 1. rewrite E.
    reflexivity.
Qed.

(** ** Further examples *)

Lemma expandEnv_no_values_witness :
  expandEnv (fun _ => None) (lit "Bearer ${TOKEN} for ${USER}")
  = lit "Bearer ${TOKEN} for ${USER}".
Proof.
  apply expandEnv_no_values. intros v Hin. right. split; [reflexivity|].
  vm_compute in Hin. destruct Hin as [<-|[<-|[]]]; reflexivity.
Defined.

Lemma getClient_connect_failure_witness :
  getClient (example_world []) (snd backend_Y) (fst backend_Y)
            (request_tools (example_world [])) initial_state
  = (Throw (Failure (lit "ECONNREFUSED")),
     logged initial_state [EvConnect session_of_Y; EvClose session_of_Y]).
Proof.
  refine (getClient_connect_failure (example_world []) (snd backend_Y)
            (fst backend_Y) (request_tools (example_world []))
            initial_state (transport session_of_Y)
            (Failure (lit "ECONNREFUSED")) _ _); reflexivity.
Defined.

Lemma getClient_outcome_witness :
  getClient (example_world []) (snd backend_X) (fst backend_X)
            (call_tool (example_world []) (lit "fail") JNull) initial_state
  = (Throw (Failure (lit "tool failed")),
     logged initial_state
            [EvConnect session_of_X;
             EvCallTool session_of_X (lit "fail") JNull;
             EvClose session_of_X]).
Proof.
  refine (getClient_outcome (example_world []) (snd backend_X)
            (fst backend_X) (call_tool (example_world []) (lit "fail") JNull)
            initial_state (transport session_of_X) _ _); reflexivity.
Defined.

Lemma executeTool_run_witness :
  executeTool (example_world []) (lit "X") (lit "fail") JNull
              (registered [tool_named "fail" JNull])
  = (Throw (Failure (lit "tool failed")),
     logged (registered [tool_named "fail" JNull])
            [EvConnect session_of_X;
             EvCallTool session_of_X (lit "fail") JNull;
             EvClose session_of_X]).
Proof.
  refine (executeTool_run (example_world [])
            (registered [tool_named "fail" JNull]) (lit "X") (lit "fail")
            JNull (entry_of backend_X (tool_named "fail" JNull)) _).
  reflexivity.
Defined.

Lemma qualified_views_witness :
  dispatch_of (prepareTools [(lit "git.log.all",
                              Call (lit "git") (lit "log.all"))])
              (lit "git") (lit "log_all")
  = Some (Call (lit "git") (lit "log.all")).
Proof.
  refine (proj1 (proj2 (proj2 (proj2 (proj2 (proj2
            (qualified_views (lit "git") (local "git" None)
               (tool_named "log.all" JNull)
               (Call (lit "git") (lit "log.all")))))))) _).
  reflexivity.
Defined.

Lemma getAllServerTools_publishes_witness :
  tools (serverConfig
           (snd (getAllServerTools
                   (example_world [tool_named "add" number_schema])
                   {| servers := Some [backend_X; backend_Y] |}
                   initial_state)))
  = prepareTools
      (raw_tools (example_world [tool_named "add" number_schema])
                 [backend_X; backend_Y] []).
Proof.
  refine (proj1 (proj2 (getAllServerTools_publishes
            (example_world [tool_named "add" number_schema])
            [backend_X; backend_Y] initial_state) _ _)).
  - reflexivity.
  - reflexivity.
Defined.

(** Two tools with one qualified name: the later one is the one that is
    reached. *)
Lemma prepareTools_lookup_witness :
  dispatch_of
    (prepareTools [(lit "git.log.all", Call (lit "git") (lit "log.all"));
                   (lit "git.log_all", Call (lit "git") (lit "log_all"))])
    (lit "git") (lit "log_all")
  = Some (Call (lit "git") (lit "log_all")).
Proof.
  refine (prepareTools_lookup _ (lit "git") (lit "log_all") _ _ _ _).
  - repeat constructor.
  - reflexivity.
  - reflexivity.
  - reflexivity.
Defined.

Lemma serverTools_index_witness :
  exists t',
    assoc (lit "X.add")
          (serverTools (serverConfig
             (snd (getAllServerTools
                     (example_world [tool_named "add" number_schema])
                     {| servers := Some [backend_X; backend_Y] |}
                     initial_state))))
    = Some t'
    /\ name t' = lit "X.add".
Proof.
  refine (proj2 (proj2 (serverTools_index
            (example_world [tool_named "add" number_schema])
            [backend_X; backend_Y] initial_state _))
            backend_X (tool_named "add" number_schema) _ _).
  - constructor.
  - left. reflexivity.
  - left. reflexivity.
Defined.

Lemma dispatch_reaches_registry_witness :
  exists b' t',
    In b' [backend_X; backend_Y]
    /\ In t' (surviving (example_world [tool_named "add" number_schema]) b')
    /\ dispatch_of
         (tools (serverConfig
            (snd (getAllServerTools
                    (example_world [tool_named "add" number_schema])
                    {| servers := Some [backend_X; backend_Y] |}
                    initial_state))))
         (lit "X") (lit "add")
       = Some (Call (fst b') (name t'))
    /\ callableName (fst b') (name t') = lit "X.add"
    /\ find (fun e => eqb (Entry.serverName e) (fst b')
                      && eqb (name (Entry.tool e)) (name t'))
            (toolRegistry
               (snd (getAllServerTools
                       (example_world [tool_named "add" number_schema])
                       {| servers := Some [backend_X; backend_Y] |}
                       initial_state)))
       <> None.
Proof.
  refine (dispatch_reaches_registry
            (example_world [tool_named "add" number_schema])
            [backend_X; backend_Y] initial_state
            backend_X (tool_named "add" number_schema) _ _ _ _).
  - reflexivity.
  - reflexivity.
  - left. reflexivity.
  - left. reflexivity.
Defined.

Lemma toType_depth_cap_witness :
  toType (nested_schema (JObj [(lit "enum", JStr (lit "red"))])) 3
  = Ok (Text (lit "{ [key: string]: any }")).
Proof.
  apply toType_depth_cap; [reflexivity | reflexivity | lia].
Defined.
